(** * Direct and inverse geodetic problems with ellipsoidal chords

    A shallow embedding of [geodetic_problems.py] together with the
    properties of its two solver classes, [DirectProblem] and
    [InverseProblem].

    Two readings of Python's [float] are used.

    - The main development reads a [float] as a real number ([R]): every
      arithmetic operation is exact, and the only run-time failures are the
      ones the interpreter raises ([ZeroDivisionError] on a division by
      zero, [ValueError] from [math.sqrt] outside its domain, and the
      [ValueError]s the constructors raise themselves).
    - Module [Binary64] evaluates the two distance accessors of the inverse
      problem in IEEE 754 double precision, to settle what is said about
      their agreement "for double precision". *)

From Stdlib Require Import Reals Lra Lia ZArith Bool List.
From Stdlib Require Import String Ascii DecimalString.
From Stdlib Require Floats.
Local Open Scope R_scope.

(** ** The Python run time *)

Module Py.

(** The exceptions that can escape from the two classes. *)
Inductive exn : Type :=
| ValueError (msg : string)
| ZeroDivisionError
| OverflowError.


(** A call either returns a value or raises. *)
Inductive result (A : Type) : Type :=
| Ok (a : A)
| Raise (e : exn).

Arguments Ok {A} a.
Arguments Raise {A} e.

Definition bind {A B : Type} (c : result A) (k : A -> result B) : result B :=
  match c with
  | Ok a => k a
  | Raise e => Raise e
  end.

(** [for _ in range(0, n): s = body(s)] *)
Fixpoint for_range {S : Type} (n : nat) (body : S -> result S) (s : S)
  : result S :=
  match n with
  | O => Ok s
  | S n' => bind (body s) (for_range n' body)
  end.

(** Comparisons, as booleans. *)
Definition le (x y : R) : bool := if Rle_dec x y then true else false.
Definition lt (x y : R) : bool := if Rlt_dec x y then true else false.
Definition gt (x y : R) : bool := lt y x.

(** [x / y] on floats: a zero divisor raises. *)
Definition truediv (x y : R) : result R :=
  if Req_dec_T y 0 then Raise ZeroDivisionError else Ok (x / y).

Definition math_domain_error : string := "math domain error".

(** [math.sqrt] *)
Definition math_sqrt (x : R) : result R :=
  if lt x 0 then Raise (ValueError math_domain_error) else Ok (sqrt x).

(** [math.radians] and [math.degrees] *)
Definition radians (x : R) : R := x * (PI / 180).
Definition degrees (x : R) : R := x * (180 / PI).

(** [math.atan2 y x], with values in (-pi, pi]. *)
Definition atan2 (y x : R) : R :=
  if lt 0 x then atan (y / x)
  else if lt x 0 then
         (if le 0 y then atan (y / x) + PI else atan (y / x) - PI)
  else if lt 0 y then PI / 2
  else if lt y 0 then - (PI / 2)
  else 0.

(** [x % y] for a positive [y]: the result has the sign of [y]. *)
Definition mod_ (x y : R) : R := x - IZR (Int_part (x / y)) * y.

(** [int(x)]: truncation towards zero. *)
Definition int (x : R) : Z :=
  if le 0 x then Int_part x else (- Int_part (- x))%Z.

(** [str] of an [int], as in [f'{degrees}']. *)
Definition str_int (z : Z) : string := NilZero.string_of_int (Z.to_int z).

(** Rounding of a non-negative real to the nearest integer, ties to the
    even one: the rule [format] follows on the exact value. *)
Definition round_half_even (r : R) : Z :=
  let f := Int_part r in
  let d := r - IZR f in
  if lt d (1 / 2) then f
  else if lt (1 / 2) d then (f + 1)%Z
  else if Z.even f then f else (f + 1)%Z.

Definition digit (d : Z) : ascii := ascii_of_nat (48 + Z.to_nat d).

(** The [k] low decimal digits of [m], most significant first. *)
Fixpoint digits (k : nat) (m : Z) : string :=
  match k with
  | O => EmptyString
  | S k' => String (digit ((m / 10 ^ Z.of_nat k') mod 10)) (digits k' m)
  end.

(** [format(x, '.8f')] *)
Definition format_8f (x : R) : string :=
  let n := round_half_even (Rabs x * 10 ^ 8) in
  ((if lt x 0 then "-" else EmptyString)
     ++ str_int (n / 10 ^ 8) ++ "." ++ digits 8 (n mod 10 ^ 8))%string.

(** [math.acos] *)
Definition math_acos (x : R) : result R :=
  if lt x (-1) || lt 1 x then Raise (ValueError math_domain_error)
  else Ok (acos x).

(** A [dict] with string keys, in insertion order. *)
Definition dict (V : Type) : Type := list (string * V).

Definition keys {V : Type} (d : dict V) : list string := List.map fst d.

(** [str] of a [dict] of floats, given [str] on floats:
    [{'X': 1.0, 'Y': 2.0}]. *)
Definition str_dict (str_float : R -> string) (d : dict R) : string :=
  ("{" ++ String.concat ", "
            (List.map (fun kv => "'" ++ fst kv ++ "': " ++ str_float (snd kv))
               d)
       ++ "}")%string.

End Py.

Import Py.

Declare Scope py_scope.
Delimit Scope py_scope with py.
Notation "x <- c ;; k" := (bind c (fun x => k))
  (at level 61, c at next level, right associativity) : py_scope.
Notation "'ret' x" := (Ok x) (at level 60) : py_scope.
Local Open Scope py_scope.

(** ** Angle formatting, shared by both classes *)

Definition degree_sign : string := "°".
Definition minute_sign : string := "'".
Definition second_sign : string := String "034"%char EmptyString.

(** [decimal_to_dms(self, decimal_degrees)]; [self] is not used. *)
Definition decimal_to_dms (decimal_degrees : R) : string :=
  let degrees := int decimal_degrees in
  let minutes_float := (Rabs decimal_degrees - IZR (Z.abs degrees)) * 60 in
  let minutes := int minutes_float in
  let seconds := (minutes_float - IZR minutes) * 60 in
  (str_int degrees ++ degree_sign ++ str_int minutes ++ minute_sign
     ++ format_8f seconds ++ second_sign)%string.

(** The radicand of the prime-vertical radius of curvature and the radius
    itself: [a / math.sqrt(1 - e2 * math.sin(lat)**2)], the expression both
    constructors and [latitude] evaluate. *)
Definition curvature_radicand (e2 lat : R) : R := 1 - e2 * sin lat ^ 2.

Definition curvature_radius (a e2 lat : R) : result R :=
  s <- math_sqrt (curvature_radicand e2 lat) ;;
  truediv a s.

Definition latitude_msg : string := "Latitude must be in range [-90, 90]".

(** The default semi-axes of both constructors (GRS80). *)
Definition default_a : R := 6378137.
Definition default_b : R := 63567523141 / 10000.

(** ** class DirectProblem *)

Module DirectProblem.

Definition longitude_msg : string := "Longitude must be in range (-180, 180)".

(** The attributes of an instance once [__init__] has returned; angles
    are in radians. *)
Record t : Type := mk {
  lat1 : R; lon1 : R; height1 : R;
  chord : R; azimuth : R; zenith : R;
  a : R; b : R; dec_degs : bool;
  e2 : R; N1 : R;
  l : R; m : R; n : R
}.

Definition init (lat1 lon1 height1 chord azimuth zenith a b : R)
           (dec_degs : bool) : result t :=
  if negb (le (-90) lat1 && le lat1 90) then Raise (ValueError latitude_msg)
  else if gt lon1 360 then Raise (ValueError longitude_msg)
  else
    let lon1 := if gt lon1 180 then lon1 - 360 else lon1 in
    let lat1 := radians lat1 in
    let lon1 := radians lon1 in
    let azimuth := radians azimuth in
    let zenith := radians zenith in
    e2 <- truediv (a ^ 2 - b ^ 2) (a ^ 2) ;;
    N1 <- curvature_radius a e2 lat1 ;;
    let l := cos lat1 * cos lon1 * cos zenith
             - sin lat1 * cos lon1 * sin zenith * cos azimuth
             - sin lon1 * sin zenith * sin azimuth in
    let m := cos lat1 * sin lon1 * cos zenith
             - sin lat1 * sin lon1 * sin zenith * cos azimuth
             + cos lon1 * sin zenith * sin azimuth in
    let n := sin lat1 * cos zenith
             + cos lat1 * sin zenith * cos azimuth in
    ret (mk lat1 lon1 height1 chord azimuth zenith a b dec_degs e2 N1 l m n).

Section Methods.
Variable self : t.

(** The numerator before the loop, and the radicand of the denominator. *)
Definition numerator0 : R :=
  (N1 self + height1 self) * sin (lat1 self) + chord self * n self.

Definition denominator_radicand : R :=
  ((N1 self + height1 self) * cos (lat1 self) * cos (lon1 self)
   + chord self * l self) ^ 2
  + ((N1 self + height1 self) * cos (lat1 self) * sin (lon1 self)
     + chord self * m self) ^ 2.

(** One turn of the loop of [latitude], on the pair [(lat2, N2)]. *)
Definition latitude_body (st : R * R) : result (R * R) :=
  let '(lat2, N2) := st in
  let numerator :=
    (N1 self + height1 self) * sin (lat1 self) + chord self * n self
    + e2 self * (N2 * sin lat2 - N1 self * sin (lat1 self)) in
  denominator <- math_sqrt denominator_radicand ;;
  q <- truediv numerator denominator ;;
  let lat2 := atan q in
  N2 <- curvature_radius (a self) (e2 self) lat2 ;;
  ret (lat2, N2).

Definition latitude : result (R * R) :=
  let numerator := numerator0 in
  denominator <- math_sqrt denominator_radicand ;;
  q <- truediv numerator denominator ;;
  let lat2 := atan q in
  N2 <- curvature_radius (a self) (e2 self) lat2 ;;
  st <- for_range 15 latitude_body (lat2, N2) ;;
  ret (degrees (fst st), snd st).

Definition longitude : R :=
  let X := (N1 self + height1 self) * cos (lat1 self) * sin (lon1 self)
           + chord self * m self in
  let Y := (N1 self + height1 self) * cos (lat1 self) * cos (lon1 self)
           + chord self * l self in
  let lon2 := degrees (atan2 X Y) in
  if gt lon2 180 then lon2 - 360
  else if lt lon2 (-180) then lon2 + 360
  else lon2.

Definition height : result R :=
  r1 <- latitude ;;
  let lat2 := radians (fst r1) in
  let lon2 := radians longitude in
  r2 <- latitude ;;
  let N2 := snd r2 in
  N2_H2 <- truediv
             ((N1 self + height1 self) * cos (lat1 self) * sin (lon1 self)
              + chord self * m self)
             (cos lat2 * sin lon2) ;;
  ret (N2_H2 - N2).

Definition reduced_distance : result R :=
  r1 <- latitude ;;
  let lat2 := radians (fst r1) in
  r2 <- latitude ;;
  let N2 := snd r2 in
  height2 <- height ;;
  k1 <- truediv (height1 self) (N1 self) ;;
  k2 <- truediv height2 N2 ;;
  k3 <- truediv (height1 self * height2) (N1 self * N2) ;;
  let k := k1 + k2 + k3 in
  mi <- truediv (a self ^ 4 - b self ^ 4) (a self ^ 4) ;;
  let tau :=
    2 * (N2 - N1 self) * (height2 - height1 self)
    + k * mi * (N2 * sin lat2 - N1 self * sin (lat1 self)) ^ 2
    - 2 * e2 self * (N2 * sin lat2 - N1 self * sin (lat1 self))
      * (height2 * sin lat2 - height1 self * sin (lat1 self)) in
  p1 <- truediv 1 (1 + k) ;;
  p2 <- truediv ((height2 - height1 self) ^ 2) (chord self ^ 2) ;;
  p3 <- truediv tau (chord self ^ 2) ;;
  let p := p1 * (k + p2 + p3) in
  s <- math_sqrt (1 - p) ;;
  q <- truediv p (1 + s) ;;
  ret (chord self - chord self * q).

Definition reverse_zenith_distance : result R :=
  r1 <- latitude ;;
  let lat2 := radians (fst r1) in
  let lon2 := radians longitude in
  r2 <- latitude ;;
  let N2 := snd r2 in
  height2 <- height ;;
  let cos_fi :=
    sin (lat1 self) * sin lat2
    + cos (lat1 self) * cos lat2 * cos (lon2 - lon1 self) in
  q <- truediv
         ((N1 self + height1 self) * cos_fi - (N2 + height2)
          + e2 self * (N2 * sin lat2 - N1 self * sin (lat1 self)) * sin lat2)
         (chord self) ;;
  cos_zen2 <- math_acos q ;;
  ret (degrees cos_zen2).

Definition convert_to_xyz : result (dict R) :=
  r1 <- latitude ;;
  let lat2 := radians (fst r1) in
  let lon2 := radians longitude in
  r2 <- latitude ;;
  let N2 := snd r2 in
  height2 <- height ;;
  let X2 := (N2 + height2) * cos lat2 * cos lon2 in
  let Y2 := (N2 + height2) * cos lat2 * sin lon2 in
  let Z2 := (N2 * (1 - e2 self) + height2) * sin lat2 in
  ret (("X", X2) :: ("Y", Y2) :: ("Z", Z2) :: nil)%string.

End Methods.

Definition decimal_to_dms (self : t) : R -> string := decimal_to_dms.

(** [display_measures]; [str_float] is [str] on floats, which the labelled
    values are written with. *)
Section Display.
Variable str_float : R -> string.
Variable self : t.

Definition display_measures : result (dict string) :=
  if dec_degs self then
    v1 <- latitude self ;;
    v2 <- latitude self ;;
    v4 <- height self ;;
    v5 <- reduced_distance self ;;
    v6 <- reverse_zenith_distance self ;;
    v7 <- convert_to_xyz self ;;
    ret (("Normal radius of curvature", str_float (snd v1) ++ " m")
         :: ("Latitude", str_float (fst v2) ++ degree_sign)
         :: ("Longitude", str_float (longitude self) ++ degree_sign)
         :: ("Height", str_float v4 ++ " m")
         :: ("Reduced chord", str_float v5 ++ " m")
         :: ("Reverse zenith distance", str_float v6 ++ degree_sign)
         :: ("XYZ 2", str_dict str_float v7 ++ " m")
         :: nil)%string
  else
    v1 <- latitude self ;;
    v2 <- latitude self ;;
    v4 <- height self ;;
    v5 <- reduced_distance self ;;
    v6 <- reverse_zenith_distance self ;;
    v7 <- convert_to_xyz self ;;
    ret (("Normal radius of curvature", str_float (snd v1) ++ " m")
         :: ("Latitude", decimal_to_dms self (fst v2))
         :: ("Longitude", decimal_to_dms self (longitude self))
         :: ("Height", str_float v4 ++ " m")
         :: ("Reduced chord", str_float v5 ++ " m")
         :: ("Reverse zenith distance", decimal_to_dms self v6)
         :: ("XYZ 2", str_dict str_float v7 ++ " m")
         :: nil)%string.

End Display.

End DirectProblem.

(** ** The latitude loop, in the words of the specification *)

(** The specification describes [latitude] as an initialisation followed by
    fifteen updates, each of which recomputes N2 from the current lat2,
    recomputes the numerator and then sets lat2, with one denominator
    throughout.  This is that description, run on the same arithmetic. *)

Module LatitudeAsSpecified.

Section Loop.
Variable self : DirectProblem.t.

(** One update on [(lat2, N2)], with the denominator [den] of the
    initialisation. *)
Definition update (den : R) (st : R * R) : result (R * R) :=
  let lat2 := fst st in
  N2 <- curvature_radius (DirectProblem.a self) (DirectProblem.e2 self) lat2 ;;
  let num :=
    DirectProblem.numerator0 self
    + DirectProblem.e2 self
      * (N2 * sin lat2
         - DirectProblem.N1 self * sin (DirectProblem.lat1 self)) in
  q <- truediv num den ;;
  ret (atan q, N2).

(** The initialisation and the fifteen updates.  N2 is not assigned before
    the first update; 0 stands for it until then. *)
Definition iterate : result (R * R) :=
  den <- math_sqrt (DirectProblem.denominator_radicand self) ;;
  q <- truediv (DirectProblem.numerator0 self) den ;;
  for_range 15 (update den) (atan q, 0).

(** The pair that is returned: lat2 in degrees, and N2. *)
Definition latitude : result (R * R) :=
  st <- iterate ;;
  ret (degrees (fst st), snd st).

End Loop.

End LatitudeAsSpecified.

(** ** class InverseProblem *)

Module InverseProblem.

Definition longitude_msg : string := "Longitude must be in range [0, 360)".

Record t : Type := mk {
  lat1 : R; lon1 : R; height1 : R;
  lat2 : R; lon2 : R; height2 : R;
  a : R; b : R; dec_degs : bool;
  e2 : R; N1 : R; N2 : R
}.

Definition init (lat1 lon1 height1 lat2 lon2 height2 a b : R)
           (dec_degs : bool) : result t :=
  if negb (le (-90) lat1 && le lat1 90) then Raise (ValueError latitude_msg)
  else if negb (le (-90) lat2 && le lat2 90)
  then Raise (ValueError latitude_msg)
  else if gt lon1 360 || gt lon2 360 then Raise (ValueError longitude_msg)
  else
    let lon1 := if gt lon1 180 then lon1 - 360 else lon1 in
    let lon2 := if gt lon2 180 then lon2 - 360 else lon2 in
    let lat1 := radians lat1 in
    let lon1 := radians lon1 in
    let lat2 := radians lat2 in
    let lon2 := radians lon2 in
    e2 <- truediv (a ^ 2 - b ^ 2) (a ^ 2) ;;
    N1 <- curvature_radius a e2 lat1 ;;
    N2 <- curvature_radius a e2 lat2 ;;
    ret (mk lat1 lon1 height1 lat2 lon2 height2 a b dec_degs e2 N1 N2).

Section Methods.
Variable self : t.

Definition cos_fi : R :=
  sin (lat1 self) * sin (lat2 self)
  + cos (lat1 self) * cos (lat2 self) * cos (lon2 self - lon1 self).

(** The value [chord_distance] takes the square root of. *)
Definition chord_radicand (mi : R) : R :=
  (N2 self + height2 self) ^ 2 + (N1 self + height1 self) ^ 2
  - 2 * (N2 self + height2 self) * (N1 self + height1 self) * cos_fi
  - mi * (N2 self * sin (lat2 self) - N1 self * sin (lat1 self)) ^ 2
  - 2 * e2 self
    * (N2 self * sin (lat2 self) - N1 self * sin (lat1 self))
    * (height2 self * sin (lat2 self) - height1 self * sin (lat1 self)).

Definition chord_distance : result R :=
  mi <- truediv (a self ^ 4 - b self ^ 4) (a self ^ 4) ;;
  math_sqrt (chord_radicand mi).

Definition cartesian_radicand : R :=
  let X1 := (N1 self + height1 self) * cos (lat1 self) * cos (lon1 self) in
  let Y1 := (N1 self + height1 self) * cos (lat1 self) * sin (lon1 self) in
  let Z1 := (N1 self * (1 - e2 self) + height1 self) * sin (lat1 self) in
  let X2 := (N2 self + height2 self) * cos (lat2 self) * cos (lon2 self) in
  let Y2 := (N2 self + height2 self) * cos (lat2 self) * sin (lon2 self) in
  let Z2 := (N2 self * (1 - e2 self) + height2 self) * sin (lat2 self) in
  (X2 - X1) ^ 2 + (Y2 - Y1) ^ 2 + (Z2 - Z1) ^ 2.

Definition cartesian_distance : result R :=
  math_sqrt cartesian_radicand.

Definition reduced_radicand (mi : R) : R :=
  let sin_2fi :=
    sin ((lat2 self - lat1 self) / 2) ^ 2
    + cos (lat1 self) * cos (lat2 self)
      * sin ((lon2 self - lon1 self) / 2) ^ 2 in
  4 * N1 self * N2 self * sin_2fi + (N2 self - N1 self) ^ 2
  - mi * (N2 self * sin (lat2 self) - N1 self * sin (lat1 self)) ^ 2.

Definition reduced_distance : result R :=
  mi <- truediv (a self ^ 4 - b self ^ 4) (a self ^ 4) ;;
  math_sqrt (reduced_radicand mi).

(** The azimuth before the final adjustment: [math.atan2(1, ctgA)] in
    degrees, folded when it exceeds 180. *)
Definition azimuth_of_cotangent (ctgA : R) : R :=
  let azimuth := degrees (atan2 1 ctgA) in
  if gt azimuth 180 then azimuth - 360 else azimuth.

Definition forward_azimuth : result R :=
  ctga1 <- truediv
             (sin (lat2 self) * cos (lat1 self)
              - cos (lat2 self) * sin (lat1 self)
                * cos (lon2 self - lon1 self))
             (cos (lat2 self) * sin (lon2 self - lon1 self)) ;;
  q <- truediv
         (e2 self
          * ((N2 self * sin (lat2 self) - N1 self * sin (lat1 self))
             * cos (lat1 self)))
         ((N2 self + height2 self) * cos (lat2 self)
          * sin (lon2 self - lon1 self)) ;;
  let ctgA1 := ctga1 - q in
  ret (azimuth_of_cotangent ctgA1).

(** [reverse_azimuth] up to, and not including, its last statement. *)
Definition reverse_azimuth_unflipped : result R :=
  ctga2 <- truediv
             (- (sin (lat1 self) * cos (lat2 self)
                 - cos (lat1 self) * sin (lat2 self)
                   * cos (lon2 self - lon1 self)))
             (cos (lat1 self) * sin (lon2 self - lon1 self)) ;;
  q <- truediv
         (e2 self
          * ((N2 self * sin (lat2 self) - N1 self * sin (lat1 self))
             * cos (lat2 self)))
         ((N1 self + height1 self) * cos (lat1 self)
          * sin (lon2 self - lon1 self)) ;;
  let ctgA2 := ctga2 - q in
  ret (azimuth_of_cotangent ctgA2).

Definition reverse_azimuth : result R :=
  azimuth <- reverse_azimuth_unflipped ;;
  ret (mod_ (azimuth + 180) 360).

Definition convert_to_xyz : dict R * dict R :=
  let X1 := (N1 self + height1 self) * cos (lat1 self) * cos (lon1 self) in
  let Y1 := (N1 self + height1 self) * cos (lat1 self) * sin (lon1 self) in
  let Z1 := (N1 self * (1 - e2 self) + height1 self) * sin (lat1 self) in
  let X2 := (N2 self + height2 self) * cos (lat2 self) * cos (lon2 self) in
  let Y2 := (N2 self + height2 self) * cos (lat2 self) * sin (lon2 self) in
  let Z2 := (N2 self * (1 - e2 self) + height2 self) * sin (lat2 self) in
  ((("X", X1) :: ("Y", Y1) :: ("Z", Z1) :: nil)%string,
   (("X", X2) :: ("Y", Y2) :: ("Z", Z2) :: nil)%string).

Definition forward_zenith_distance : result R :=
  c <- chord_distance ;;
  q <- truediv
         ((N2 self + height2 self) * cos_fi - (N1 self + height1 self)
          - e2 self * (N2 self * sin (lat2 self) - N1 self * sin (lat1 self))
            * sin (lat1 self))
         c ;;
  cos_zen1 <- math_acos q ;;
  ret (degrees cos_zen1).

Definition reverse_zenith_distance : result R :=
  c <- chord_distance ;;
  q <- truediv
         ((N1 self + height1 self) * cos_fi - (N2 self + height2 self)
          + e2 self * (N2 self * sin (lat2 self) - N1 self * sin (lat1 self))
            * sin (lat2 self))
         c ;;
  cos_zen2 <- math_acos q ;;
  ret (degrees cos_zen2).

End Methods.

Definition decimal_to_dms (self : t) : R -> string := decimal_to_dms.

(** [display_measures]; [str_float] is [str] on floats. *)
Section Display.
Variable str_float : R -> string.
Variable self : t.

Definition display_measures : result (dict string) :=
  let v1 := fst (convert_to_xyz self) in
  let v2 := snd (convert_to_xyz self) in
  if dec_degs self then
    v3 <- chord_distance self ;;
    v4 <- cartesian_distance self ;;
    v5 <- reduced_distance self ;;
    v6 <- forward_azimuth self ;;
    v7 <- reverse_azimuth self ;;
    v8 <- forward_zenith_distance self ;;
    v9 <- reverse_zenith_distance self ;;
    ret (("XYZ 1", str_dict str_float v1 ++ " m")
         :: ("XYZ 2", str_dict str_float v2 ++ " m")
         :: ("Chord (distance)", str_float v3 ++ " m")
         :: ("Cartesian distance", str_float v4 ++ " m")
         :: ("Reduced chord", str_float v5 ++ " m")
         :: ("Forward azimuth", str_float v6 ++ degree_sign)
         :: ("Reverse azimuth", str_float v7 ++ degree_sign)
         :: ("Forward zenith distance", str_float v8 ++ degree_sign)
         :: ("Reverse zenith distance", str_float v9 ++ degree_sign)
         :: nil)%string
  else
    v3 <- chord_distance self ;;
    v4 <- cartesian_distance self ;;
    v5 <- reduced_distance self ;;
    v6 <- forward_azimuth self ;;
    v7 <- reverse_azimuth self ;;
    v8 <- forward_zenith_distance self ;;
    v9 <- reverse_zenith_distance self ;;
    ret (("XYZ 1", str_dict str_float v1 ++ " m")
         :: ("XYZ 2", str_dict str_float v2 ++ " m")
         :: ("Chord (distance)", str_float v3 ++ " m")
         :: ("Cartesian distance", str_float v4 ++ " m")
         :: ("Reduced chord", str_float v5 ++ " m")
         :: ("Forward azimuth", decimal_to_dms self v6)
         :: ("Reverse azimuth", decimal_to_dms self v7)
         :: ("Forward zenith distance", decimal_to_dms self v8)
         :: ("Reverse zenith distance", decimal_to_dms self v9)
         :: nil)%string.

End Display.

End InverseProblem.

(** ** Double precision *)

(** [InverseProblem]'s constructor and its two chord accessors, evaluated on
    IEEE 754 binary64 numbers.  [+], [-], [*], [/] and [math.sqrt] are the
    correctly rounded operations of the format.  [x ** k] is the correctly
    rounded power.  [math.sin] and [math.cos] belong to the platform's
    mathematical library, and are tabulated only where the C standard fixes
    their value, [sin(±0) = ±0] and [cos(±0) = 1]; an evaluation that needs
    another value is left undetermined ([None]). *)

Module Binary64.

Import Floats.PrimFloat Floats.FloatOps Floats.SpecFloat.
Local Open Scope float_scope.

Definition M (A : Type) : Type := option (result A).

Definition returns {A : Type} (a : A) : M A := Some (Ok a).
Definition raises {A : Type} (e : exn) : M A := Some (Raise e).

Definition mbind {A B : Type} (c : M A) (k : A -> M B) : M B :=
  match c with
  | Some (Ok a) => k a
  | Some (Raise e) => Some (Raise e)
  | None => None
  end.

Declare Scope b64_scope.
Notation "x <- c ;; k" := (mbind c (fun x => k))
  (at level 61, c at next level, right associativity) : b64_scope.
Local Open Scope b64_scope.

Definition truediv (x y : float) : M float :=
  if y =? 0 then raises ZeroDivisionError else returns (x / y).

(** [x ** k] for a positive integer [k]: the exact power, rounded once;
    a finite base whose power overflows raises [OverflowError]. *)
Definition pow (x : float) (k : positive) : M float :=
  match Prim2SF x with
  | S754_finite s m e =>
      let r := SF2Prim (binary_normalize prec emax
                          (cond_Zopp (s && Z.odd (Zpos k)) (Zpos (m ^ k)))
                          (e * Zpos k) false) in
      if is_infinity r then raises OverflowError else returns r
  | S754_zero s => returns (if s && Z.odd (Zpos k) then -0 else 0)
  | S754_infinity s =>
      returns (if s && Z.odd (Zpos k) then neg_infinity else infinity)
  | S754_nan => returns nan
  end.

Definition math_sqrt (x : float) : M float :=
  if x <? 0 then raises (ValueError math_domain_error)
  else returns (sqrt x).

Definition math_sin (x : float) : M float :=
  if is_zero x then returns x else None.

Definition math_cos (x : float) : M float :=
  if is_zero x then returns 1 else None.

(** [math.radians]: a multiplication by pi / 180, itself a double. *)
Definition degToRad : float := 0x1.921fb54442d18p+1 / 180.
Definition radians (x : float) : float := x * degToRad.

Definition curvature_radius (a e2 lat : float) : M float :=
  s <- math_sin lat ;;
  s2 <- pow s 2 ;;
  r <- math_sqrt (1 - e2 * s2) ;;
  truediv a r.

Record t : Type := mk {
  lat1 : float; lon1 : float; height1 : float;
  lat2 : float; lon2 : float; height2 : float;
  a : float; b : float; dec_degs : bool;
  e2 : float; N1 : float; N2 : float
}.

Definition init (lat1 lon1 height1 lat2 lon2 height2 a b : float)
           (dec_degs : bool) : M t :=
  if negb ((-90 <=? lat1) && (lat1 <=? 90))
  then raises (ValueError latitude_msg)
  else if negb ((-90 <=? lat2) && (lat2 <=? 90))
  then raises (ValueError latitude_msg)
  else if (360 <? lon1) || (360 <? lon2)
  then raises (ValueError InverseProblem.longitude_msg)
  else
    let lon1 := if 180 <? lon1 then lon1 - 360 else lon1 in
    let lon2 := if 180 <? lon2 then lon2 - 360 else lon2 in
    let lat1 := radians lat1 in
    let lon1 := radians lon1 in
    let lat2 := radians lat2 in
    let lon2 := radians lon2 in
    a2 <- pow a 2 ;;
    b2 <- pow b 2 ;;
    a2' <- pow a 2 ;;
    e2 <- truediv (a2 - b2) a2' ;;
    N1 <- curvature_radius a e2 lat1 ;;
    N2 <- curvature_radius a e2 lat2 ;;
    returns (mk lat1 lon1 height1 lat2 lon2 height2 a b dec_degs e2 N1 N2).

Section Methods.
Variable self : t.

Definition chord_distance : M float :=
  a4 <- pow (a self) 4 ;;
  b4 <- pow (b self) 4 ;;
  a4' <- pow (a self) 4 ;;
  mi <- truediv (a4 - b4) a4' ;;
  s1 <- math_sin (lat1 self) ;;
  s2 <- math_sin (lat2 self) ;;
  c1 <- math_cos (lat1 self) ;;
  c2 <- math_cos (lat2 self) ;;
  cd <- math_cos (lon2 self - lon1 self) ;;
  let cos_fi := s1 * s2 + c1 * c2 * cd in
  p2 <- pow (N2 self + height2 self) 2 ;;
  p1 <- pow (N1 self + height1 self) 2 ;;
  d2 <- pow (N2 self * s2 - N1 self * s1) 2 ;;
  let chord :=
    p2 + p1
    - 2 * (N2 self + height2 self) * (N1 self + height1 self) * cos_fi
    - mi * d2
    - 2 * e2 self * (N2 self * s2 - N1 self * s1)
      * (height2 self * s2 - height1 self * s1) in
  math_sqrt chord.

Definition cartesian_distance : M float :=
  c1 <- math_cos (lat1 self) ;;
  cl1 <- math_cos (lon1 self) ;;
  sl1 <- math_sin (lon1 self) ;;
  s1 <- math_sin (lat1 self) ;;
  let X1 := (N1 self + height1 self) * c1 * cl1 in
  let Y1 := (N1 self + height1 self) * c1 * sl1 in
  let Z1 := (N1 self * (1 - e2 self) + height1 self) * s1 in
  c2 <- math_cos (lat2 self) ;;
  cl2 <- math_cos (lon2 self) ;;
  sl2 <- math_sin (lon2 self) ;;
  s2 <- math_sin (lat2 self) ;;
  let X2 := (N2 self + height2 self) * c2 * cl2 in
  let Y2 := (N2 self + height2 self) * c2 * sl2 in
  let Z2 := (N2 self * (1 - e2 self) + height2 self) * s2 in
  dx <- pow (X2 - X1) 2 ;;
  dy <- pow (Y2 - Y1) 2 ;;
  dz <- pow (Z2 - Z1) 2 ;;
  let chord := dx + dy + dz in
  math_sqrt chord.

End Methods.


End Binary64.

(** * Properties *)

(** ** The comparisons and the arithmetic of the run time *)

Lemma le_true (x y : R) : x <= y -> le x y = true.
Proof. intros H. unfold le. destruct (Rle_dec x y); [reflexivity | contradiction]. Qed.

Lemma le_false (x y : R) : y < x -> le x y = false.
Proof. intros H. unfold le. destruct (Rle_dec x y); [lra | reflexivity]. Qed.

Lemma lt_true (x y : R) : x < y -> lt x y = true.
Proof. intros H. unfold lt. destruct (Rlt_dec x y); [reflexivity | contradiction]. Qed.

Lemma lt_false (x y : R) : y <= x -> lt x y = false.
Proof. intros H. unfold lt. destruct (Rlt_dec x y); [lra | reflexivity]. Qed.

Lemma gt_true (x y : R) : y < x -> gt x y = true.
Proof. intros H. unfold gt. now apply lt_true. Qed.

Lemma gt_false (x y : R) : x <= y -> gt x y = false.
Proof. intros H. unfold gt. now apply lt_false. Qed.

Lemma truediv_ok (x y : R) : y <> 0 -> truediv x y = Ok (x / y).
Proof.
  intros H. unfold truediv. destruct (Req_dec_T y 0); [contradiction | reflexivity].
Qed.

Lemma truediv_zero (x : R) : truediv x 0 = Raise ZeroDivisionError.
Proof.
  unfold truediv. destruct (Req_dec_T 0 0); [reflexivity | contradiction].
Qed.

Lemma math_sqrt_ok (x : R) : 0 <= x -> math_sqrt x = Ok (sqrt x).
Proof. intros H. unfold math_sqrt. now rewrite lt_false. Qed.

Lemma radians_degrees (x : R) : radians (degrees x) = x.
Proof.
  unfold radians, degrees. pose proof PI_RGT_0 as HPI. field. lra.
Qed.

Lemma for_range_succ {S : Type} (n : nat) (body : S -> result S) (s : S) :
  for_range (Datatypes.S n) body s = bind (body s) (for_range n body).
Proof. reflexivity. Qed.

(** ** The ellipsoid *)

(** With [0 < b <= a] the first eccentricity squared is computed without a
    failure and lies in [0, 1). *)
Lemma eccentricity_ok (a b : R) :
  0 < b <= a ->
  truediv (a ^ 2 - b ^ 2) (a ^ 2) = Ok ((a ^ 2 - b ^ 2) / a ^ 2)
  /\ 0 <= (a ^ 2 - b ^ 2) / a ^ 2 < 1.
Proof.
  intros [Hb Hab].
  assert (Ha2 : 0 < a ^ 2) by nra.
  split.
  - apply truediv_ok. lra.
  - split.
    + apply Rmult_le_pos; [nra | left; now apply Rinv_0_lt_compat].
    + apply Rmult_lt_reg_r with (a ^ 2); [assumption |].
      unfold Rdiv. rewrite Rmult_assoc, Rinv_l by lra. nra.
Qed.

Lemma sin_sqr_le_1 (x : R) : 0 <= sin x ^ 2 <= 1.
Proof.
  pose proof (sin2_cos2 x) as H. unfold Rsqr in H.
  pose proof (pow2_ge_0 (sin x)). pose proof (pow2_ge_0 (cos x)).
  split; nra.
Qed.

Lemma curvature_radicand_pos (e2 lat : R) :
  0 <= e2 < 1 -> 0 < curvature_radicand e2 lat.
Proof.
  intros [H0 H1]. unfold curvature_radicand.
  pose proof (sin_sqr_le_1 lat) as [Hs0 Hs1]. nra.
Qed.

Lemma curvature_radius_ok (a e2 lat : R) :
  0 < curvature_radicand e2 lat ->
  curvature_radius a e2 lat = Ok (a / sqrt (curvature_radicand e2 lat)).
Proof.
  intros H. unfold curvature_radius.
  rewrite math_sqrt_ok by lra. cbn [bind].
  apply truediv_ok. apply Rgt_not_eq. now apply sqrt_lt_R0.
Qed.



(** ** Construction *)

Lemma latitude_check_true (x : R) :
  -90 <= x <= 90 -> negb (le (-90) x && le x 90) = false.
Proof. intros [H1 H2]. now rewrite !le_true. Qed.


(** What the constructor of [DirectProblem] builds from accepted arguments. *)
Lemma direct_init_ok (lat1 lon1 h1 chord az zen a b : R) (dd : bool) :
  0 < b <= a -> -90 <= lat1 <= 90 -> lon1 <= 360 ->
  let lat := radians lat1 in
  let lon := radians (if gt lon1 180 then lon1 - 360 else lon1) in
  let e2 := (a ^ 2 - b ^ 2) / a ^ 2 in
  let N1 := a / sqrt (curvature_radicand e2 lat) in
  DirectProblem.init lat1 lon1 h1 chord az zen a b dd
  = Ok (DirectProblem.mk lat lon h1 chord (radians az) (radians zen) a b dd
          e2 N1
          (cos lat * cos lon * cos (radians zen)
           - sin lat * cos lon * sin (radians zen) * cos (radians az)
           - sin lon * sin (radians zen) * sin (radians az))
          (cos lat * sin lon * cos (radians zen)
           - sin lat * sin lon * sin (radians zen) * cos (radians az)
           + cos lon * sin (radians zen) * sin (radians az))
          (sin lat * cos (radians zen)
           + cos lat * sin (radians zen) * cos (radians az))).
Proof.
  intros Hab Hlat Hlon lat lon e2 N1. unfold DirectProblem.init.
  rewrite latitude_check_true by assumption.
  rewrite (gt_false lon1 360) by assumption.
  destruct (eccentricity_ok a b Hab) as [He He2].
  rewrite He. cbn [bind].
  rewrite curvature_radius_ok by now apply curvature_radicand_pos.
  reflexivity.
Qed.

(** What the constructor of [InverseProblem] builds from accepted arguments. *)
Lemma inverse_init_ok (lat1 lon1 h1 lat2 lon2 h2 a b : R) (dd : bool) :
  0 < b <= a -> -90 <= lat1 <= 90 -> -90 <= lat2 <= 90 ->
  lon1 <= 360 -> lon2 <= 360 ->
  let e2 := (a ^ 2 - b ^ 2) / a ^ 2 in
  InverseProblem.init lat1 lon1 h1 lat2 lon2 h2 a b dd
  = Ok (InverseProblem.mk
          (radians lat1) (radians (if gt lon1 180 then lon1 - 360 else lon1)) h1
          (radians lat2) (radians (if gt lon2 180 then lon2 - 360 else lon2)) h2
          a b dd e2
          (a / sqrt (curvature_radicand e2 (radians lat1)))
          (a / sqrt (curvature_radicand e2 (radians lat2)))).
Proof.
  intros Hab Hlat1 Hlat2 Hlon1 Hlon2 e2. unfold InverseProblem.init.
  rewrite !latitude_check_true by assumption.
  rewrite (gt_false lon1 360), (gt_false lon2 360) by assumption.
  cbn [orb].
  destruct (eccentricity_ok a b Hab) as [He He2].
  rewrite He. cbn [bind].
  rewrite !curvature_radius_ok by now apply curvature_radicand_pos.
  reflexivity.
Qed.



(** ** The chord of the inverse problem *)

Lemma sin_cos_sqr (x : R) : sin x ^ 2 + cos x ^ 2 = 1.
Proof.
  pose proof (sin2_cos2 x) as H. unfold Rsqr in H. simpl. lra.
Qed.








Section DoublePrecision.

Import Floats.PrimFloat.
Local Open Scope float_scope.


End DoublePrecision.

(** ** Symmetry of the three distances *)

Section Swap.

Variables (x1 l1 h1 x2 l2 h2 a b e2 n1 n2 : R) (dd : bool).

(** An instance and the one with the two points exchanged. *)
Local Abbreviation AB :=
  (InverseProblem.mk x1 l1 h1 x2 l2 h2 a b dd e2 n1 n2).
Local Abbreviation BA :=
  (InverseProblem.mk x2 l2 h2 x1 l1 h1 a b dd e2 n2 n1).

Lemma chord_radicand_swap (mi : R) :
  InverseProblem.chord_radicand AB mi = InverseProblem.chord_radicand BA mi.
Proof.
  unfold InverseProblem.chord_radicand, InverseProblem.cos_fi.
  cbn [InverseProblem.lat1 InverseProblem.lon1 InverseProblem.height1
       InverseProblem.lat2 InverseProblem.lon2 InverseProblem.height2
       InverseProblem.e2 InverseProblem.N1 InverseProblem.N2].
  replace (l1 - l2) with (- (l2 - l1)) by ring.
  rewrite cos_neg. ring.
Qed.

Lemma cartesian_radicand_swap :
  InverseProblem.cartesian_radicand AB = InverseProblem.cartesian_radicand BA.
Proof.
  unfold InverseProblem.cartesian_radicand.
  cbn [InverseProblem.lat1 InverseProblem.lon1 InverseProblem.height1
       InverseProblem.lat2 InverseProblem.lon2 InverseProblem.height2
       InverseProblem.e2 InverseProblem.N1 InverseProblem.N2].
  ring.
Qed.

Lemma reduced_radicand_swap (mi : R) :
  InverseProblem.reduced_radicand AB mi = InverseProblem.reduced_radicand BA mi.
Proof.
  unfold InverseProblem.reduced_radicand.
  cbn [InverseProblem.lat1 InverseProblem.lon1 InverseProblem.height1
       InverseProblem.lat2 InverseProblem.lon2 InverseProblem.height2
       InverseProblem.e2 InverseProblem.N1 InverseProblem.N2].
  replace ((x1 - x2) / 2) with (- ((x2 - x1) / 2)) by field.
  replace ((l1 - l2) / 2) with (- ((l2 - l1) / 2)) by field.
  rewrite !sin_neg. ring.
Qed.

Lemma distances_swap :
  InverseProblem.chord_distance AB = InverseProblem.chord_distance BA
  /\ InverseProblem.cartesian_distance AB = InverseProblem.cartesian_distance BA
  /\ InverseProblem.reduced_distance AB = InverseProblem.reduced_distance BA.
Proof.
  unfold InverseProblem.chord_distance, InverseProblem.cartesian_distance,
    InverseProblem.reduced_distance.
  rewrite cartesian_radicand_swap.
  repeat split.
  - change (InverseProblem.a AB) with (InverseProblem.a BA).
    change (InverseProblem.b AB) with (InverseProblem.b BA).
    destruct (truediv _ _); cbn [bind]; [| reflexivity].
    now rewrite chord_radicand_swap.
  - change (InverseProblem.a AB) with (InverseProblem.a BA).
    change (InverseProblem.b AB) with (InverseProblem.b BA).
    destruct (truediv _ _); cbn [bind]; [| reflexivity].
    now rewrite reduced_radicand_swap.
Qed.

End Swap.

(** C10: for a valid pair of points, constructing the instance with the two
    points exchanged succeeds as well, and [chord_distance()],
    [cartesian_distance()] and [reduced_distance()] give the same result on
    both instances. *)
Theorem distances_symmetric
        (lat1 lon1 h1 lat2 lon2 h2 a b : R) (dd : bool) :
  0 < b <= a ->
  -90 <= lat1 <= 90 -> -90 <= lat2 <= 90 ->
  lon1 <= 360 -> lon2 <= 360 ->
  exists AB BA,
    InverseProblem.init lat1 lon1 h1 lat2 lon2 h2 a b dd = Ok AB
    /\ InverseProblem.init lat2 lon2 h2 lat1 lon1 h1 a b dd = Ok BA
    /\ InverseProblem.chord_distance AB = InverseProblem.chord_distance BA
    /\ InverseProblem.cartesian_distance AB
       = InverseProblem.cartesian_distance BA
    /\ InverseProblem.reduced_distance AB = InverseProblem.reduced_distance BA.
Proof.
  intros Hab Hlat1 Hlat2 Hlon1 Hlon2.
  do 2 eexists.
  split; [now apply inverse_init_ok |].
  split; [now apply inverse_init_ok |].
  apply distances_swap.
Qed.

Lemma distances_symmetric_witness :
  exists AB BA,
    InverseProblem.init 52 21 100 (-33) 285 7 6378137 (63567523141 / 10000) true
    = Ok AB
    /\ InverseProblem.init (-33) 285 7 52 21 100 6378137 (63567523141 / 10000)
         true
       = Ok BA
    /\ InverseProblem.chord_distance AB = InverseProblem.chord_distance BA
    /\ InverseProblem.cartesian_distance AB
       = InverseProblem.cartesian_distance BA
    /\ InverseProblem.reduced_distance AB = InverseProblem.reduced_distance BA.
Proof.
  apply (distances_symmetric 52 21 100 (-33) 285 7
           6378137 (63567523141 / 10000) true); lra.
Defined.

(** ** Azimuths *)

Lemma degrees_PI2 : degrees (PI / 2) = 90.
Proof. unfold degrees. pose proof PI_RGT_0. field. lra. Qed.

Lemma degrees_lt (x y : R) : x < y -> degrees x < degrees y.
Proof.
  intros H. unfold degrees. pose proof PI_RGT_0 as HPI.
  apply Rmult_lt_compat_r; [| assumption].
  apply Rdiv_lt_0_compat; lra.
Qed.

Lemma degrees_0 : degrees 0 = 0.
Proof. unfold degrees. ring. Qed.


Lemma radians_0 : radians 0 = 0.
Proof. unfold radians. ring. Qed.

Lemma atan_pos (x : R) : 0 < x -> 0 < atan x.
Proof. intros H. rewrite <- atan_0. now apply atan_increasing. Qed.

Lemma atan_neg (x : R) : x < 0 -> atan x < 0.
Proof. intros H. rewrite <- atan_0. now apply atan_increasing. Qed.


Lemma atan2_1_0 : atan2 1 0 = PI / 2.
Proof.
  unfold atan2. rewrite !(lt_false 0 0) by lra. now rewrite lt_true by lra.
Qed.


Lemma azimuth_of_cotangent_0 : InverseProblem.azimuth_of_cotangent 0 = 90.
Proof.
  unfold InverseProblem.azimuth_of_cotangent.
  rewrite atan2_1_0, degrees_PI2. now rewrite gt_false by lra.
Qed.



(** Two points on the equator: the forward azimuth is 90 degrees, on
    whichever side the second point lies. *)
Lemma forward_azimuth_equator (ip : InverseProblem.t) :
  InverseProblem.lat1 ip = 0 -> InverseProblem.lat2 ip = 0 ->
  sin (InverseProblem.lon2 ip - InverseProblem.lon1 ip) <> 0 ->
  InverseProblem.N2 ip + InverseProblem.height2 ip <> 0 ->
  InverseProblem.forward_azimuth ip = Ok 90.
Proof.
  intros H1 H2 Hs Hn. unfold InverseProblem.forward_azimuth.
  rewrite H1, H2, sin_0, cos_0.
  rewrite truediv_ok by (rewrite Rmult_1_l; assumption).
  cbn [bind].
  rewrite truediv_ok.
  2:{ rewrite Rmult_1_r. apply Rmult_integral_contrapositive_currified;
      assumption. }
  cbn [bind]. rewrite <- azimuth_of_cotangent_0.
  do 2 f_equal. field. split; assumption.
Qed.

Lemma default_axes : 0 < default_b <= default_a.
Proof. unfold default_a, default_b. lra. Qed.


Lemma curvature_radicand_equator (e2 : R) : curvature_radicand e2 0 = 1.
Proof. unfold curvature_radicand. rewrite sin_0. ring. Qed.

Lemma curvature_radius_equator (a e2 : R) :
  a / sqrt (curvature_radicand e2 0) = a.
Proof. rewrite curvature_radicand_equator, sqrt_1. field. Qed.

(** C4, at a point due west: with GRS80, A = (0, 0, 0 m) and B = (0, -1, 0 m)
    one degree west of A on the equator, [sin(lon2 - lon1)] is negative and
    [forward_azimuth()] returns 90 degrees, the direction due east. *)
Theorem forward_azimuth_due_west :
  exists ip,
    InverseProblem.init 0 0 0 0 (-1) 0 default_a default_b true = Ok ip
    /\ sin (InverseProblem.lon2 ip - InverseProblem.lon1 ip) < 0
    /\ InverseProblem.forward_azimuth ip = Ok 90.
Proof.
  pose proof default_axes as Hab. pose proof PI_RGT_0 as HPI.
  eexists. split.
  - apply inverse_init_ok; try exact Hab; lra.
  - cbn [InverseProblem.lon1 InverseProblem.lon2].
    rewrite (gt_false (-1) 180), (gt_false 0 180) by lra.
    assert (Hsin : sin (radians (-1) - radians 0) < 0).
    { apply sin_lt_0_var; unfold radians; lra. }
    split; [exact Hsin |].
    apply forward_azimuth_equator;
      cbn [InverseProblem.lat1 InverseProblem.lat2 InverseProblem.lon1
           InverseProblem.lon2 InverseProblem.N2 InverseProblem.height2].
    + apply radians_0.
    + apply radians_0.
    + lra.
    + rewrite radians_0, curvature_radius_equator, Rplus_0_r.
      unfold default_a. lra.
Qed.

(** ** The direct problem on the equator, heading due west *)

Lemma for_range_fixed {S : Type} (n : nat) (body : S -> result S) (s : S) :
  body s = Ok s -> for_range n body s = Ok s.
Proof.
  intros H. induction n as [| n IH]; [reflexivity |].
  rewrite for_range_succ, H. exact IH.
Qed.

Lemma radians_90 : radians 90 = PI / 2.
Proof. unfold radians. field. Qed.

Lemma radians_270 : radians 270 = 3 * (PI / 2).
Proof. unfold radians. field. Qed.

(** A chord that leaves a point of the equator with no north component:
    the latitude of B is 0 and its radius of curvature is [a]. *)
Section EquatorialChord.

Variable dp : DirectProblem.t.

Hypothesis Hlat : DirectProblem.lat1 dp = 0.
Hypothesis Hn : DirectProblem.n dp = 0.
Hypothesis HN1 : DirectProblem.N1 dp = DirectProblem.a dp.
Hypothesis Hden : 0 < DirectProblem.denominator_radicand dp.

Lemma equator_numerator0 : DirectProblem.numerator0 dp = 0.
Proof.
  unfold DirectProblem.numerator0. rewrite Hlat, Hn, sin_0. ring.
Qed.

Lemma equator_latitude_body :
  DirectProblem.latitude_body dp (0, DirectProblem.a dp)
  = Ok (0, DirectProblem.a dp).
Proof.
  unfold DirectProblem.latitude_body.
  rewrite math_sqrt_ok by lra. cbn [bind].
  rewrite truediv_ok by (apply Rgt_not_eq; now apply sqrt_lt_R0).
  cbn [bind].
  rewrite Hlat, Hn, HN1, sin_0.
  replace ((DirectProblem.a dp + DirectProblem.height1 dp) * 0
           + DirectProblem.chord dp * 0
           + DirectProblem.e2 dp
             * (DirectProblem.a dp * 0 - DirectProblem.a dp * 0)) with 0
    by ring.
  replace (0 / sqrt (DirectProblem.denominator_radicand dp)) with 0
    by (unfold Rdiv; ring).
  rewrite atan_0.
  rewrite curvature_radius_ok
    by (rewrite curvature_radicand_equator; lra).
  cbn [bind]. now rewrite curvature_radius_equator.
Qed.

Lemma equator_latitude :
  DirectProblem.latitude dp = Ok (degrees 0, DirectProblem.a dp).
Proof.
  unfold DirectProblem.latitude.
  rewrite math_sqrt_ok by lra. cbn [bind].
  rewrite truediv_ok by (apply Rgt_not_eq; now apply sqrt_lt_R0).
  cbn [bind].
  rewrite equator_numerator0.
  replace (0 / sqrt (DirectProblem.denominator_radicand dp)) with 0
    by (unfold Rdiv; ring).
  rewrite atan_0.
  rewrite curvature_radius_ok
    by (rewrite curvature_radicand_equator; lra).
  cbn [bind]. rewrite curvature_radius_equator.
  rewrite (for_range_fixed 15 _ _ equator_latitude_body).
  reflexivity.
Qed.

End EquatorialChord.

Section WestwardChord.

Variable dp : DirectProblem.t.

Hypothesis Hlat : DirectProblem.lat1 dp = 0.
Hypothesis Hlon : DirectProblem.lon1 dp = 0.
Hypothesis Hheight : DirectProblem.height1 dp = 0.
Hypothesis Hchord : 0 < DirectProblem.chord dp.
Hypothesis Ha : 0 < DirectProblem.a dp.
Hypothesis HN1 : DirectProblem.N1 dp = DirectProblem.a dp.
Hypothesis Hl : DirectProblem.l dp = 0.
Hypothesis Hm : DirectProblem.m dp = -1.
Hypothesis Hn : DirectProblem.n dp = 0.

Lemma west_denominator_pos : 0 < DirectProblem.denominator_radicand dp.
Proof.
  unfold DirectProblem.denominator_radicand.
  rewrite Hlat, Hlon, Hheight, HN1, Hl, Hm, sin_0, cos_0. nra.
Qed.

Lemma west_latitude :
  DirectProblem.latitude dp = Ok (degrees 0, DirectProblem.a dp).
Proof.
  apply equator_latitude; try assumption. apply west_denominator_pos.
Qed.

(** The longitude of B, in radians, before it is turned into degrees. *)
Local Abbreviation west_lon2 :=
  (atan (- DirectProblem.chord dp / DirectProblem.a dp)).

Lemma west_lon2_range : - (PI / 2) < west_lon2 < 0.
Proof.
  pose proof (atan_bound (- DirectProblem.chord dp / DirectProblem.a dp))
    as [Hb _].
  split; [lra |].
  apply atan_neg.
  unfold Rdiv. rewrite <- Ropp_mult_distr_l.
  apply Ropp_lt_gt_0_contravar. apply Rlt_gt.
  apply Rmult_lt_0_compat; [assumption | now apply Rinv_0_lt_compat].
Qed.

Lemma west_longitude : DirectProblem.longitude dp = degrees west_lon2.
Proof.
  pose proof PI_RGT_0 as HPI. pose proof west_lon2_range as [Hlo Hhi].
  unfold DirectProblem.longitude.
  rewrite Hlat, Hlon, Hheight, HN1, Hl, Hm, sin_0, cos_0.
  replace ((DirectProblem.a dp + 0) * 1 * 0 + DirectProblem.chord dp * -1)
    with (- DirectProblem.chord dp) by ring.
  replace ((DirectProblem.a dp + 0) * 1 * 1 + DirectProblem.chord dp * 0)
    with (DirectProblem.a dp) by ring.
  unfold atan2. rewrite lt_true by assumption.
  assert (H1 : degrees (- PI) < degrees west_lon2) by (apply degrees_lt; lra).
  assert (H2 : degrees west_lon2 < degrees 0) by now apply degrees_lt.
  rewrite degrees_0 in H2.
  replace (degrees (- PI)) with (-180) in H1
    by (unfold degrees; field; lra).
  rewrite gt_false by lra. now rewrite lt_false by lra.
Qed.

Lemma west_sin_lon2 : sin west_lon2 < 0.
Proof.
  pose proof PI_RGT_0 as HPI. pose proof west_lon2_range as [Hlo Hhi].
  apply sin_lt_0_var; lra.
Qed.

Lemma west_height :
  exists h2, DirectProblem.height dp = Ok h2 /\ 0 < DirectProblem.a dp + h2.
Proof.
  pose proof west_sin_lon2 as Hsin.
  unfold DirectProblem.height.
  rewrite west_latitude. cbn [bind fst snd].
  rewrite west_longitude, !radians_degrees, cos_0.
  rewrite truediv_ok by lra. cbn [bind].
  eexists. split; [reflexivity |].
  rewrite Hlat, Hlon, Hheight, HN1, Hm, sin_0, cos_0.
  match goal with
  | |- 0 < _ + (?q - _) => assert (Hq : 0 < q)
  end.
  { replace ((DirectProblem.a dp + 0) * 1 * 0 + DirectProblem.chord dp * -1)
      with (- DirectProblem.chord dp) by ring.
    rewrite Rmult_1_l.
    replace (- DirectProblem.chord dp / sin west_lon2)
      with (DirectProblem.chord dp / - sin west_lon2) by (field; lra).
    apply Rdiv_lt_0_compat; lra. }
  lra.
Qed.

End WestwardChord.

(** The instance for A = (0, 0, 0 m), a chord of 1000 m, azimuth 270 and
    zenith distance 90 degrees on GRS80. *)
Lemma westward_instance :
  exists dp,
    DirectProblem.init 0 0 0 1000 270 90 default_a default_b true = Ok dp
    /\ DirectProblem.lat1 dp = 0 /\ DirectProblem.lon1 dp = 0
    /\ DirectProblem.height1 dp = 0 /\ DirectProblem.chord dp = 1000
    /\ DirectProblem.a dp = default_a
    /\ DirectProblem.N1 dp = default_a
    /\ DirectProblem.l dp = 0 /\ DirectProblem.m dp = -1
    /\ DirectProblem.n dp = 0.
Proof.
  pose proof default_axes as Hab.
  eexists. split.
  - apply direct_init_ok; try exact Hab; lra.
  - cbn [DirectProblem.lat1 DirectProblem.lon1 DirectProblem.height1
         DirectProblem.chord DirectProblem.a DirectProblem.N1
         DirectProblem.l DirectProblem.m DirectProblem.n].
    rewrite (gt_false 0 180) by lra.
    rewrite radians_0, radians_90, radians_270.
    rewrite sin_0, cos_0, sin_PI2, cos_PI2, sin_3PI2, cos_3PI2.
    rewrite curvature_radius_equator.
    repeat split; ring.
Qed.

(** C3, for a chord heading west: with GRS80, A = (0, 0, 0 m), a chord of
    1000 m, azimuth 270 and zenith distance 90 degrees, the direct solver
    returns a point B, the inverse solver is constructed from A and B, and
    its [forward_azimuth()] returns 90 degrees, 180 degrees away from the
    azimuth that was given and far outside a relative tolerance of 1e-6. *)
Theorem round_trip_loses_westward_azimuth :
  exists dp lat2 N2 h2 ip,
    DirectProblem.init 0 0 0 1000 270 90 default_a default_b true = Ok dp
    /\ DirectProblem.latitude dp = Ok (lat2, N2)
    /\ DirectProblem.height dp = Ok h2
    /\ InverseProblem.init 0 0 0 lat2 (DirectProblem.longitude dp) h2
         default_a default_b true = Ok ip
    /\ InverseProblem.forward_azimuth ip = Ok 90
    /\ ~ Rabs (90 - 270) <= 270 / 10 ^ 6.
Proof.
  pose proof default_axes as Hab. pose proof PI_RGT_0 as HPI.
  destruct westward_instance
    as (dp & Hinit & Hlat & Hlon & Hh & Hc & Ha & HN1 & Hl & Hm & Hn).
  assert (Hc' : 0 < DirectProblem.chord dp) by lra.
  assert (Ha' : 0 < DirectProblem.a dp) by (rewrite Ha; unfold default_a; lra).
  assert (HN1' : DirectProblem.N1 dp = DirectProblem.a dp) by congruence.
  assert (Hlatitude : DirectProblem.latitude dp
                      = Ok (degrees 0, DirectProblem.a dp))
    by (apply west_latitude; assumption).
  assert (Hlongitude : DirectProblem.longitude dp
                       = degrees (atan (- DirectProblem.chord dp
                                        / DirectProblem.a dp)))
    by (apply west_longitude; assumption).
  destruct (west_lon2_range dp) as [Hlo Hhi]; try assumption.
  assert (Hsin : sin (atan (- DirectProblem.chord dp / DirectProblem.a dp)) < 0)
    by (apply west_sin_lon2; assumption).
  destruct (west_height dp) as (h2 & Hheight & Hpos); try assumption.
  exists dp, (degrees 0), (DirectProblem.a dp), h2.
  eexists.
  split; [exact Hinit |]. split; [exact Hlatitude |].
  split; [exact Hheight |].
  assert (Hdeg : -90 < DirectProblem.longitude dp < 0).
  { rewrite Hlongitude. split.
    - replace (-90) with (degrees (- (PI / 2)))
        by (unfold degrees; field; lra).
      now apply degrees_lt.
    - rewrite <- degrees_0. now apply degrees_lt. }
  split.
  - apply inverse_init_ok; try exact Hab; rewrite ?degrees_0; lra.
  - split.
    + apply forward_azimuth_equator;
        cbn [InverseProblem.lat1 InverseProblem.lat2 InverseProblem.lon1
             InverseProblem.lon2 InverseProblem.N2 InverseProblem.height2].
      * apply radians_0.
      * now rewrite degrees_0, radians_0.
      * rewrite (gt_false 0 180), (gt_false (DirectProblem.longitude dp) 180)
          by lra.
        rewrite Hlongitude, radians_degrees, radians_0, Rminus_0_r.
        now apply Rlt_not_eq.
      * rewrite degrees_0, radians_0, curvature_radius_equator.
        rewrite <- Ha. lra.
    + intros H. unfold Rabs in H. destruct (Rcase_abs (90 - 270)); lra.
Qed.

(** ** Degenerate denominators *)









(** A chord that leaves a point of the equator straight up (zenith
    distance 0): B has the longitude of A, and [height()] returns the
    length of the chord however close to zero [sin(lon2)] is, as long as
    it is not zero. *)
Section UpwardChord.

Variable dp : DirectProblem.t.

Hypothesis Hlat : DirectProblem.lat1 dp = 0.
Hypothesis Hlon : - (PI / 2) < DirectProblem.lon1 dp < PI / 2.
Hypothesis Hlon0 : DirectProblem.lon1 dp <> 0.
Hypothesis Hheight : DirectProblem.height1 dp = 0.
Hypothesis Hchord : 0 < DirectProblem.chord dp.
Hypothesis Ha : 0 < DirectProblem.a dp.
Hypothesis HN1 : DirectProblem.N1 dp = DirectProblem.a dp.
Hypothesis Hl : DirectProblem.l dp = cos (DirectProblem.lon1 dp).
Hypothesis Hm : DirectProblem.m dp = sin (DirectProblem.lon1 dp).
Hypothesis Hn : DirectProblem.n dp = 0.





End UpwardChord.


(** ** Normalisation of the longitude *)

(** The part of the normalisation that works: an input in (-180, 360] is
    stored in (-180, 180], an input above 180 after 360 is subtracted. *)
Lemma longitude_folded (lon : R) :
  -180 < lon <= 360 ->
  -180 < (if gt lon 180 then lon - 360 else lon) <= 180
  /\ (180 < lon -> (if gt lon 180 then lon - 360 else lon) = lon - 360).
Proof.
  intros [H1 H2]. destruct (Rlt_dec 180 lon) as [H | H].
  - rewrite gt_true by assumption. split; [lra | reflexivity].
  - rewrite gt_false by lra. split; [lra | intros; lra].
Qed.

(** 285 degrees is stored as -75 degrees, by both constructors. *)
Lemma longitude_285_stored :
  exists dp ip,
    DirectProblem.init 0 285 0 1000 0 90 default_a default_b true = Ok dp
    /\ DirectProblem.lon1 dp = radians (-75)
    /\ InverseProblem.init 0 285 0 0 285 0 default_a default_b true = Ok ip
    /\ InverseProblem.lon1 ip = radians (-75)
    /\ InverseProblem.lon2 ip = radians (-75).
Proof.
  pose proof default_axes as Hab.
  do 2 eexists.
  split; [apply direct_init_ok; try exact Hab; lra |].
  split.
  { cbn [DirectProblem.lon1]. rewrite gt_true by lra. f_equal. ring. }
  split; [apply inverse_init_ok; try exact Hab; lra |].
  cbn [InverseProblem.lon1 InverseProblem.lon2].
  rewrite gt_true by lra. split; f_equal; ring.
Qed.

(** C7, below -180: with GRS80, the longitude -195 degrees, which the
    docstring of [DirectProblem] gives as an example, is accepted by both
    constructors and stored as it is; the stored value is below -pi, outside
    (-180, 180] degrees. *)
Theorem longitude_below_minus_180_kept :
  exists dp ip,
    DirectProblem.init 0 (-195) 0 1000 0 90 default_a default_b true = Ok dp
    /\ DirectProblem.lon1 dp = radians (-195)
    /\ InverseProblem.init 0 (-195) 0 0 0 0 default_a default_b true = Ok ip
    /\ InverseProblem.lon1 ip = radians (-195)
    /\ radians (-195) < radians (-180)
    /\ radians (-180) = - PI.
Proof.
  pose proof default_axes as Hab. pose proof PI_RGT_0 as HPI.
  do 2 eexists.
  split; [apply direct_init_ok; try exact Hab; lra |].
  split.
  { cbn [DirectProblem.lon1]. now rewrite gt_false by lra. }
  split; [apply inverse_init_ok; try exact Hab; lra |].
  split.
  { cbn [InverseProblem.lon1]. now rewrite gt_false by lra. }
  unfold radians. split; [lra | field].
Qed.

(** ** The loop of [latitude] *)

Lemma Ok_snd_inj {A B : Type} (a a' : A) (b b' : B) :
  Ok (a, b) = Ok (a', b') -> b = b'.
Proof. intros H. now injection H. Qed.

Lemma bind_bind {A B C : Type} (c : result A) (f : A -> result B)
      (g : B -> result C) :
  bind (bind c f) g = bind c (fun x => bind (f x) g).
Proof. destruct c; reflexivity. Qed.

Section LatitudeLoop.

Variable dp : DirectProblem.t.
Variable den : R.

Hypothesis Hsqrt : math_sqrt (DirectProblem.denominator_radicand dp) = Ok den.
Hypothesis Hden : den <> 0.

Local Abbreviation N lat :=
  (curvature_radius (DirectProblem.a dp) (DirectProblem.e2 dp) lat).

(** The latitude after one update from [lat2], given the N2 in force. *)
Local Abbreviation next lat2 N2 :=
  (atan ((DirectProblem.numerator0 dp
          + DirectProblem.e2 dp
            * (N2 * sin lat2
               - DirectProblem.N1 dp * sin (DirectProblem.lat1 dp)))
         / den)).

Lemma latitude_body_step (lat2 N2 : R) :
  DirectProblem.latitude_body dp (lat2, N2)
  = bind (N (next lat2 N2)) (fun N2' => Ok (next lat2 N2, N2')).
Proof.
  unfold DirectProblem.latitude_body. rewrite Hsqrt. cbn [bind].
  rewrite truediv_ok by assumption. reflexivity.
Qed.

Lemma update_step (lat2 d : R) :
  LatitudeAsSpecified.update dp den (lat2, d)
  = bind (N lat2) (fun N2 => Ok (next lat2 N2, N2)).
Proof.
  unfold LatitudeAsSpecified.update. cbn [fst].
  destruct (N lat2) as [N2 | e]; cbn [bind]; [| reflexivity].
  now rewrite truediv_ok by assumption.
Qed.

(** The loop of the code, entered with a freshly computed N2, and the loop
    of the specification followed by one more computation of N2, are the
    same computation. *)
Lemma loops_agree (n : nat) :
  forall lat2 d,
    bind (N lat2) (fun N2 => for_range n (DirectProblem.latitude_body dp)
                               (lat2, N2))
    = bind (for_range n (LatitudeAsSpecified.update dp den) (lat2, d))
        (fun st => bind (N (fst st)) (fun N2 => Ok (fst st, N2))).
Proof.
  induction n as [| n IH]; intros lat2 d.
  - reflexivity.
  - rewrite (for_range_succ n (LatitudeAsSpecified.update dp den)).
    rewrite update_step, bind_bind.
    destruct (N lat2) as [N2 | e]; cbn [bind]; [| reflexivity].
    rewrite for_range_succ, latitude_body_step, bind_bind.
    cbn [bind]. apply IH.
Qed.

End LatitudeLoop.

(** C2, with the N2 that is returned: [latitude()] is the initialisation
    [lat2 = atan(num0 / den)] followed by exactly fifteen updates in the
    order of the specification, all with the denominator of the
    initialisation; it returns lat2 in degrees together with N2 computed
    once more, from the final lat2.  The two sides also raise the same
    exception when one is raised. *)
Theorem latitude_is_specified_loop (dp : DirectProblem.t) :
  DirectProblem.latitude dp
  = (st <- LatitudeAsSpecified.iterate dp ;;
     N2 <- curvature_radius (DirectProblem.a dp) (DirectProblem.e2 dp)
             (fst st) ;;
     ret (degrees (fst st), N2)).
Proof.
  unfold DirectProblem.latitude, LatitudeAsSpecified.iterate.
  destruct (math_sqrt (DirectProblem.denominator_radicand dp))
    as [den | e] eqn:Hsqrt; cbn [bind]; [| reflexivity].
  cbv zeta.
  destruct (truediv (DirectProblem.numerator0 dp) den)
    as [q | e] eqn:Hq; cbn [bind]; [| reflexivity].
  assert (Hnz : den <> 0).
  { intros ->. rewrite truediv_zero in Hq. discriminate. }
  set (lat0 := atan q).
  pose proof (loops_agree dp den Hsqrt Hnz 15 lat0 0) as H.
  transitivity
    (bind
       (bind (curvature_radius (DirectProblem.a dp) (DirectProblem.e2 dp) lat0)
          (fun N2 => for_range 15 (DirectProblem.latitude_body dp) (lat0, N2)))
       (fun st => Ok (degrees (fst st), snd st))).
  - now rewrite bind_bind.
  - rewrite H, bind_bind.
    destruct (for_range 15 (LatitudeAsSpecified.update dp den) (lat0, 0))
      as [st | e]; cbn [bind]; [| reflexivity].
    destruct (curvature_radius _ _ (fst st)); reflexivity.
Qed.

(** A chord that rises from a point of the equator on an ellipsoid that is
    not a sphere: the fifteen latitudes increase strictly, and so do the
    radii of curvature computed from them. *)
Section RisingIterates.

Variable dp : DirectProblem.t.

Hypothesis Hlat : DirectProblem.lat1 dp = 0.
Hypothesis He : 0 < DirectProblem.e2 dp < 1.
Hypothesis Ha : 0 < DirectProblem.a dp.
Hypothesis Hrad : 0 < DirectProblem.denominator_radicand dp.
Hypothesis Hnum : 0 < DirectProblem.numerator0 dp.

Local Abbreviation den := (sqrt (DirectProblem.denominator_radicand dp)).

Local Abbreviation Nf lat :=
  (DirectProblem.a dp / sqrt (curvature_radicand (DirectProblem.e2 dp) lat)).

Local Abbreviation F lat :=
  (atan ((DirectProblem.numerator0 dp
          + DirectProblem.e2 dp
            * (Nf lat * sin lat
               - DirectProblem.N1 dp * sin (DirectProblem.lat1 dp)))
         / den)).

Local Abbreviation lat0 := (atan (DirectProblem.numerator0 dp / den)).

Lemma rising_den_pos : 0 < den.
Proof. now apply sqrt_lt_R0. Qed.

Lemma rising_radicand_pos (lat : R) :
  0 < curvature_radicand (DirectProblem.e2 dp) lat.
Proof. apply curvature_radicand_pos. lra. Qed.

Lemma rising_body (lat : R) :
  DirectProblem.latitude_body dp (lat, Nf lat) = Ok (F lat, Nf (F lat)).
Proof.
  pose proof rising_den_pos as Hd.
  rewrite (latitude_body_step dp den) by (try apply math_sqrt_ok; lra).
  rewrite curvature_radius_ok by apply rising_radicand_pos.
  reflexivity.
Qed.

Lemma rising_update (lat d : R) :
  LatitudeAsSpecified.update dp den (lat, d) = Ok (F lat, Nf lat).
Proof.
  pose proof rising_den_pos as Hd.
  rewrite update_step by lra.
  rewrite curvature_radius_ok by apply rising_radicand_pos.
  reflexivity.
Qed.

Lemma rising_code_loop (n : nat) :
  forall lat,
    for_range n (DirectProblem.latitude_body dp) (lat, Nf lat)
    = Ok (Nat.iter n (fun x => F x) lat, Nf (Nat.iter n (fun x => F x) lat)).
Proof.
  induction n as [| n IH]; intros lat; [reflexivity |].
  rewrite for_range_succ, rising_body. cbn [bind].
  rewrite IH, (Nat.iter_succ_r n _ (fun x => F x) lat). reflexivity.
Qed.

Lemma rising_spec_loop (n : nat) :
  forall lat d,
    for_range (S n) (LatitudeAsSpecified.update dp den) (lat, d)
    = Ok (Nat.iter (S n) (fun x => F x) lat,
          Nf (Nat.iter n (fun x => F x) lat)).
Proof.
  induction n as [| n IH]; intros lat d.
  - rewrite for_range_succ, rising_update. reflexivity.
  - rewrite for_range_succ, rising_update. cbn [bind].
    rewrite IH, (Nat.iter_succ_r (S n) _ (fun x => F x) lat),
      (Nat.iter_succ_r n _ (fun x => F x) lat).
    reflexivity.
Qed.

Lemma rising_latitude :
  DirectProblem.latitude dp
  = Ok (degrees (Nat.iter 15 (fun x => F x) lat0),
        Nf (Nat.iter 15 (fun x => F x) lat0)).
Proof.
  pose proof rising_den_pos as Hd.
  unfold DirectProblem.latitude.
  rewrite math_sqrt_ok by lra. cbn [bind].
  rewrite truediv_ok by lra. cbn [bind].
  rewrite curvature_radius_ok by apply rising_radicand_pos.
  cbn [bind]. rewrite rising_code_loop. reflexivity.
Qed.

Lemma rising_latitude_as_specified :
  LatitudeAsSpecified.latitude dp
  = Ok (degrees (Nat.iter 15 (fun x => F x) lat0),
        Nf (Nat.iter 14 (fun x => F x) lat0)).
Proof.
  pose proof rising_den_pos as Hd.
  unfold LatitudeAsSpecified.latitude, LatitudeAsSpecified.iterate.
  rewrite math_sqrt_ok by lra. cbn [bind].
  rewrite truediv_ok by lra. cbn [bind].
  rewrite rising_spec_loop. reflexivity.
Qed.

Lemma rising_sin (x y : R) :
  0 < x -> x < y -> y < PI / 2 -> 0 < sin x < sin y.
Proof.
  intros H0 Hxy Hy. pose proof PI_RGT_0 as HPI. split.
  - apply sin_gt_0; lra.
  - apply sin_increasing_1; lra.
Qed.

Lemma rising_N (x y : R) :
  0 < x -> x < y -> y < PI / 2 -> 0 < Nf x < Nf y.
Proof.
  intros H0 Hxy Hy.
  destruct (rising_sin x y H0 Hxy Hy) as [Hs0 Hs].
  pose proof (rising_radicand_pos x) as Hrx.
  pose proof (rising_radicand_pos y) as Hry.
  assert (Hr : curvature_radicand (DirectProblem.e2 dp) y
               < curvature_radicand (DirectProblem.e2 dp) x).
  { unfold curvature_radicand.
    assert (Hp : sin x ^ 2 < sin y ^ 2).
    { simpl. rewrite !Rmult_1_r.
      apply Rmult_le_0_lt_compat; lra. }
    assert (Hq : DirectProblem.e2 dp * sin x ^ 2
                 < DirectProblem.e2 dp * sin y ^ 2)
      by (apply Rmult_lt_compat_l; lra).
    lra. }
  assert (Hsx : 0 < sqrt (curvature_radicand (DirectProblem.e2 dp) x))
    by now apply sqrt_lt_R0.
  assert (Hsy : 0 < sqrt (curvature_radicand (DirectProblem.e2 dp) y))
    by now apply sqrt_lt_R0.
  assert (Hsq : sqrt (curvature_radicand (DirectProblem.e2 dp) y)
                < sqrt (curvature_radicand (DirectProblem.e2 dp) x))
    by (apply sqrt_lt_1; lra).
  split.
  - now apply Rdiv_lt_0_compat.
  - unfold Rdiv. apply Rmult_lt_compat_l; [assumption |].
    apply Rinv_lt_contravar; [now apply Rmult_lt_0_compat | assumption].
Qed.

Lemma rising_F_pos (x : R) : 0 < x -> x < PI / 2 -> 0 < F x < PI / 2.
Proof.
  intros H0 Hx. pose proof PI_RGT_0 as HPI. pose proof rising_den_pos as Hd.
  assert (Hs : 0 < sin x) by (apply sin_gt_0; lra).
  assert (HN : 0 < Nf x).
  { apply Rdiv_lt_0_compat; [assumption |].
    apply sqrt_lt_R0, rising_radicand_pos. }
  rewrite Hlat, sin_0, Rmult_0_r, Rminus_0_r.
  match goal with |- 0 < atan ?q < _ => pose proof (atan_bound q) as [_ Hb] end.
  split; [| exact Hb].
  apply atan_pos. apply Rdiv_lt_0_compat; [| assumption].
  assert (0 < DirectProblem.e2 dp * (Nf x * sin x)).
  { apply Rmult_lt_0_compat; [lra |]. now apply Rmult_lt_0_compat. }
  lra.
Qed.

Lemma rising_F (x y : R) : 0 < x -> x < y -> y < PI / 2 -> F x < F y.
Proof.
  intros H0 Hxy Hy. pose proof rising_den_pos as Hd.
  destruct (rising_sin x y H0 Hxy Hy) as [Hs0 Hs].
  destruct (rising_N x y H0 Hxy Hy) as [HN0 HN].
  apply atan_increasing.
  unfold Rdiv at 1 3. apply Rmult_lt_compat_r; [now apply Rinv_0_lt_compat |].
  apply Rplus_lt_compat_l. apply Rmult_lt_compat_l; [lra |].
  apply Rplus_lt_compat_r. nra.
Qed.

Lemma rising_lat0 : 0 < lat0 /\ lat0 < F lat0 /\ F lat0 < PI / 2.
Proof.
  pose proof rising_den_pos as Hd.
  assert (H0 : 0 < lat0).
  { apply atan_pos. now apply Rdiv_lt_0_compat. }
  assert (H1 : lat0 < PI / 2).
  { pose proof (atan_bound (DirectProblem.numerator0 dp / den)) as [_ Hb].
    exact Hb. }
  destruct (rising_F_pos lat0 H0 H1) as [_ HF].
  repeat split; try assumption.
  assert (Hs : 0 < sin lat0).
  { pose proof PI_RGT_0. apply sin_gt_0; lra. }
  assert (HN : 0 < Nf lat0).
  { apply Rdiv_lt_0_compat; [assumption |].
    apply sqrt_lt_R0, rising_radicand_pos. }
  apply atan_increasing.
  unfold Rdiv at 1 2. apply Rmult_lt_compat_r; [now apply Rinv_0_lt_compat |].
  rewrite Hlat, sin_0, Rmult_0_r, Rminus_0_r.
  assert (0 < DirectProblem.e2 dp * (Nf lat0 * sin lat0)).
  { apply Rmult_lt_0_compat; [lra |]. now apply Rmult_lt_0_compat. }
  lra.
Qed.

Lemma rising_iterates (n : nat) :
  0 < Nat.iter n (fun x => F x) lat0
  /\ Nat.iter n (fun x => F x) lat0 < Nat.iter (S n) (fun x => F x) lat0
  /\ Nat.iter (S n) (fun x => F x) lat0 < PI / 2.
Proof.
  induction n as [| n (H0 & H1 & H2)].
  - exact rising_lat0.
  - repeat split.
    + lra.
    + change (F (Nat.iter n (fun x => F x) lat0)
              < F (Nat.iter (S n) (fun x => F x) lat0)).
      now apply rising_F.
    + change (F (Nat.iter (S n) (fun x => F x) lat0) < PI / 2).
      apply rising_F_pos; lra.
Qed.

(** The radius of curvature that [latitude()] returns is not the one of
    the last update of the specification. *)
Lemma rising_latitudes_differ :
  DirectProblem.latitude dp <> LatitudeAsSpecified.latitude dp.
Proof.
  rewrite rising_latitude, rising_latitude_as_specified.
  destruct (rising_iterates 14) as (H0 & H1 & H2).
  destruct (rising_N _ _ H0 H1 H2) as [_ HN].
  intros H. apply Ok_snd_inj in H.
  rewrite H in HN. exact (Rlt_irrefl _ HN).
Qed.

End RisingIterates.

(** C2, as stated: on the ellipsoid with a = 2 and b = 1, for A = (0, 0, 0 m),
    a chord of 1 m, azimuth 0 and zenith distance 90 degrees, [latitude()]
    does not return the pair the specification describes: the N2 it returns
    belongs to the final lat2, the N2 of the fifteenth update to the lat2
    before it. *)
Lemma latitude_not_as_specified :
  exists dp,
    DirectProblem.init 0 0 0 1 0 90 2 1 true = Ok dp
    /\ DirectProblem.latitude dp <> LatitudeAsSpecified.latitude dp.
Proof.
  assert (Hab : 0 < 1 <= 2) by lra.
  pose proof (direct_init_ok 0 0 0 1 0 90 2 1 true Hab) as Hinit.
  cbv zeta in Hinit.
  rewrite (gt_false 0 180) in Hinit by lra.
  rewrite radians_0, radians_90, sin_0, cos_0, sin_PI2, cos_PI2 in Hinit.
  rewrite curvature_radius_equator in Hinit.
  match type of Hinit with _ -> _ -> _ = Ok ?d => set (dp := d) in * end.
  exists dp. split; [apply Hinit; lra |].
  apply rising_latitudes_differ.
  - reflexivity.
  - unfold dp. cbn [DirectProblem.e2]. lra.
  - unfold dp. cbn [DirectProblem.a]. lra.
  - unfold DirectProblem.denominator_radicand, dp.
    cbn [DirectProblem.lat1 DirectProblem.lon1 DirectProblem.height1
         DirectProblem.chord DirectProblem.N1 DirectProblem.l
         DirectProblem.m].
    rewrite sin_0, cos_0. nra.
  - unfold DirectProblem.numerator0, dp.
    cbn [DirectProblem.lat1 DirectProblem.height1 DirectProblem.chord
         DirectProblem.N1 DirectProblem.n].
    rewrite sin_0. lra.
Qed.

(** ** Degrees, minutes, seconds *)

Lemma Int_part_eq (r : R) (z : Z) : IZR z <= r < IZR z + 1 -> Int_part r = z.
Proof.
  intros [H1 H2]. symmetry. apply Int_part_spec. lra.
Qed.



Lemma int_nonneg (r : R) : 0 <= r -> int r = Int_part r.
Proof. intros H. unfold int. now rewrite le_true. Qed.

Lemma int_IZR (z : Z) : (0 <= z)%Z -> int (IZR z) = z.
Proof.
  intros H. rewrite int_nonneg by now apply IZR_le.
  apply Int_part_eq. lra.
Qed.



Lemma round_half_even_0 : round_half_even 0 = 0%Z.
Proof.
  unfold round_half_even.
  rewrite (Int_part_eq 0 0) by lra.
  now rewrite lt_true by lra.
Qed.


Lemma format_8f_nonneg (x : R) :
  0 <= x ->
  format_8f x
  = (str_int (round_half_even (Rabs x * 10 ^ 8) / 10 ^ 8) ++ "."
       ++ digits 8 (round_half_even (Rabs x * 10 ^ 8) mod 10 ^ 8))%string.
Proof. intros H. unfold format_8f. now rewrite lt_false. Qed.

Lemma format_8f_0 : format_8f 0 = "0.00000000"%string.
Proof.
  rewrite format_8f_nonneg by lra.
  rewrite Rabs_R0, Rmult_0_l, round_half_even_0. reflexivity.
Qed.

(** An angle that is a whole number of minutes. *)
Lemma decimal_to_dms_whole_minutes (x : R) (d m : Z) :
  int x = d ->
  (Rabs x - IZR (Z.abs d)) * 60 = IZR m ->
  (0 <= m)%Z ->
  decimal_to_dms x
  = (str_int d ++ degree_sign ++ str_int m ++ minute_sign
       ++ "0.00000000" ++ second_sign)%string.
Proof.
  intros Hd Hm Hpos. unfold decimal_to_dms.
  rewrite Hd, Hm, int_IZR by assumption.
  replace ((IZR m - IZR m) * 60) with 0 by ring.
  now rewrite format_8f_0.
Qed.



(** Between -1 and 0 the degree field is [0] and shows no sign: -0.5 and
    0.5 degrees are formatted alike. *)
Lemma decimal_to_dms_minus_half :
  decimal_to_dms (- (1 / 2)) = ("0°30'0.00000000" ++ second_sign)%string
  /\ decimal_to_dms (1 / 2) = ("0°30'0.00000000" ++ second_sign)%string.
Proof.
  split.
  - rewrite (decimal_to_dms_whole_minutes (- (1 / 2)) 0 30).
    + reflexivity.
    + unfold int. rewrite le_false by lra.
      rewrite (Int_part_eq (- - (1 / 2)) 0) by lra. reflexivity.
    + rewrite Rabs_left by lra. simpl. lra.
    + lia.
  - rewrite (decimal_to_dms_whole_minutes (1 / 2) 0 30).
    + reflexivity.
    + rewrite int_nonneg by lra. apply Int_part_eq. lra.
    + rewrite Rabs_pos_eq by lra. simpl. lra.
    + lia.
Qed.


(** * Further properties of the two classes *)

(** ** [math.atan2] *)





(** ** The point the direct problem returns *)

Section DirectPoint.

Variable dp : DirectProblem.t.

(** The Cartesian X and Y of A moved by the chord: the two sums
    [longitude], [height] and the denominator of [latitude] are built
    from. *)
Local Abbreviation Xsum :=
  ((DirectProblem.N1 dp + DirectProblem.height1 dp)
   * cos (DirectProblem.lat1 dp) * cos (DirectProblem.lon1 dp)
   + DirectProblem.chord dp * DirectProblem.l dp).

Local Abbreviation Ysum :=
  ((DirectProblem.N1 dp + DirectProblem.height1 dp)
   * cos (DirectProblem.lat1 dp) * sin (DirectProblem.lon1 dp)
   + DirectProblem.chord dp * DirectProblem.m dp).









End DirectPoint.
Lemma westward_returns :
  exists dp h,
    DirectProblem.init 0 0 0 1000 270 90 default_a default_b true = Ok dp
    /\ DirectProblem.latitude dp = Ok (degrees 0, DirectProblem.a dp)
    /\ DirectProblem.height dp = Ok h.
Proof.
  destruct westward_instance
    as (dp & Hinit & Hlat & Hlon & Hh & Hc & Ha & HN1 & Hl & Hm & Hn).
  assert (Hc' : 0 < DirectProblem.chord dp) by lra.
  assert (Ha' : 0 < DirectProblem.a dp) by (rewrite Ha; unfold default_a; lra).
  assert (HN1' : DirectProblem.N1 dp = DirectProblem.a dp) by congruence.
  destruct (west_height dp) as (h2 & Hheight & _); try assumption.
  exists dp, h2. repeat split; try assumption.
  apply west_latitude; assumption.
Qed.


Lemma convert_to_xyz_returns (dp : DirectProblem.t) (h : R) (r : R * R) :
  DirectProblem.latitude dp = Ok r ->
  DirectProblem.height dp = Ok h ->
  exists xyz, DirectProblem.convert_to_xyz dp = Ok xyz.
Proof.
  intros Hr Hh. unfold DirectProblem.convert_to_xyz.
  rewrite Hr, Hh. cbn [bind]. eexists. reflexivity.
Qed.


(** ** The latitude the direct problem returns *)




(** ** The range of the two azimuths *)






(** ** The direction cosines of the chord *)

Lemma direction_cosines_polynomial (c s cl sl cz sz ca sa : R) :
  s ^ 2 + c ^ 2 = 1 -> sl ^ 2 + cl ^ 2 = 1 ->
  sz ^ 2 + cz ^ 2 = 1 -> sa ^ 2 + ca ^ 2 = 1 ->
  (c * cl * cz - s * cl * sz * ca - sl * sz * sa) ^ 2
  + (c * sl * cz - s * sl * sz * ca + cl * sz * sa) ^ 2
  + (s * cz + c * sz * ca) ^ 2 = 1.
Proof.
  intros H1 H2 H3 H4.
  replace ((c * cl * cz - s * cl * sz * ca - sl * sz * sa) ^ 2
           + (c * sl * cz - s * sl * sz * ca + cl * sz * sa) ^ 2
           + (s * cz + c * sz * ca) ^ 2)
    with ((sl ^ 2 + cl ^ 2) * ((c * cz - s * sz * ca) ^ 2 + (sz * sa) ^ 2)
          + (s * cz + c * sz * ca) ^ 2) by ring.
  rewrite H2, Rmult_1_l.
  replace ((c * cz - s * sz * ca) ^ 2 + (sz * sa) ^ 2
           + (s * cz + c * sz * ca) ^ 2)
    with ((s ^ 2 + c ^ 2) * (cz ^ 2 + sz ^ 2 * ca ^ 2) + sz ^ 2 * sa ^ 2)
    by ring.
  rewrite H1, Rmult_1_l.
  replace (cz ^ 2 + sz ^ 2 * ca ^ 2 + sz ^ 2 * sa ^ 2)
    with (cz ^ 2 + sz ^ 2 * (sa ^ 2 + ca ^ 2)) by ring.
  rewrite H4. lra.
Qed.

(** X3: the direction cosines every constructed [DirectProblem] holds form
    a unit vector, whatever the point, the azimuth and the zenith
    distance. *)
Theorem direction_cosines_unit
        (lat1 lon1 h1 chord az zen a b : R) (dd : bool)
        (dp : DirectProblem.t) :
  DirectProblem.init lat1 lon1 h1 chord az zen a b dd = Ok dp ->
  DirectProblem.l dp ^ 2 + DirectProblem.m dp ^ 2 + DirectProblem.n dp ^ 2 = 1.
Proof.
  unfold DirectProblem.init.
  destruct (negb _); [discriminate |].
  destruct (gt lon1 360); [discriminate |].
  destruct (truediv _ _) as [e2 | e]; cbn [bind]; [| discriminate].
  destruct (curvature_radius _ _ _) as [N1 | e]; cbn [bind]; [| discriminate].
  intros H. injection H as <-.
  cbn [DirectProblem.l DirectProblem.m DirectProblem.n].
  apply direction_cosines_polynomial; apply sin_cos_sqr.
Qed.

Lemma direction_cosines_unit_witness :
  exists dp,
    DirectProblem.init 0 0 0 1000 270 90 default_a default_b true = Ok dp
    /\ DirectProblem.l dp ^ 2 + DirectProblem.m dp ^ 2
       + DirectProblem.n dp ^ 2 = 1.
Proof.
  destruct westward_returns as (dp & h & Hinit & _).
  exists dp. split; [exact Hinit |].
  exact (direction_cosines_unit _ _ _ _ _ _ _ _ _ dp Hinit).
Defined.

(** ** Bounds on the radius of curvature *)



(** ** Cartesian coordinates of the inverse problem *)

Lemma ellipsoid_polynomial (a b sg c s cl sl : R) :
  0 < b -> 0 < a -> sg <> 0 ->
  sg ^ 2 = 1 - (a ^ 2 - b ^ 2) / a ^ 2 * s ^ 2 ->
  s ^ 2 + c ^ 2 = 1 -> sl ^ 2 + cl ^ 2 = 1 ->
  ((a / sg + 0) * c * cl) ^ 2 / a ^ 2
  + ((a / sg + 0) * c * sl) ^ 2 / a ^ 2
  + ((a / sg * (1 - (a ^ 2 - b ^ 2) / a ^ 2) + 0) * s) ^ 2 / b ^ 2 = 1.
Proof.
  intros Hb Ha Hsg Hsq Hc Hl.
  replace (((a / sg + 0) * c * cl) ^ 2 / a ^ 2
           + ((a / sg + 0) * c * sl) ^ 2 / a ^ 2
           + ((a / sg * (1 - (a ^ 2 - b ^ 2) / a ^ 2) + 0) * s) ^ 2 / b ^ 2)
    with ((c ^ 2 * (sl ^ 2 + cl ^ 2) + b ^ 2 / a ^ 2 * s ^ 2) / sg ^ 2)
    by (field; repeat split; lra).
  rewrite Hl.
  replace (c ^ 2 * 1 + b ^ 2 / a ^ 2 * s ^ 2) with (sg ^ 2).
  - field. assumption.
  - rewrite Hsq. replace (c ^ 2) with (1 - s ^ 2) by lra. field. lra.
Qed.

(** X5: for two valid points of height 0, the Cartesian coordinates that
    [convert_to_xyz()] of [InverseProblem] returns satisfy the equation of
    the ellipsoid, [X^2/a^2 + Y^2/a^2 + Z^2/b^2 = 1]. *)
Theorem xyz_on_ellipsoid (lat1 lon1 lat2 lon2 a b : R) (dd : bool) :
  0 < b <= a ->
  -90 <= lat1 <= 90 -> -90 <= lat2 <= 90 ->
  lon1 <= 360 -> lon2 <= 360 ->
  exists ip X1 Y1 Z1 X2 Y2 Z2,
    InverseProblem.init lat1 lon1 0 lat2 lon2 0 a b dd = Ok ip
    /\ InverseProblem.convert_to_xyz ip
       = ((("X", X1) :: ("Y", Y1) :: ("Z", Z1) :: nil)%string,
          (("X", X2) :: ("Y", Y2) :: ("Z", Z2) :: nil)%string)
    /\ X1 ^ 2 / a ^ 2 + Y1 ^ 2 / a ^ 2 + Z1 ^ 2 / b ^ 2 = 1
    /\ X2 ^ 2 / a ^ 2 + Y2 ^ 2 / a ^ 2 + Z2 ^ 2 / b ^ 2 = 1.
Proof.
  intros Hab Hlat1 Hlat2 Hlon1 Hlon2.
  destruct (eccentricity_ok a b Hab) as [_ He].
  assert (Hsg : forall lat,
             sqrt (curvature_radicand ((a ^ 2 - b ^ 2) / a ^ 2) lat) <> 0
             /\ sqrt (curvature_radicand ((a ^ 2 - b ^ 2) / a ^ 2) lat) ^ 2
                = 1 - (a ^ 2 - b ^ 2) / a ^ 2 * sin lat ^ 2).
  { intros lat.
    pose proof (curvature_radicand_pos _ lat He) as Hpos. split.
    - apply Rgt_not_eq. now apply sqrt_lt_R0.
    - rewrite pow2_sqrt by lra. reflexivity. }
  eexists. do 6 eexists.
  split; [now apply inverse_init_ok |].
  split; [reflexivity |].
  cbn [InverseProblem.lat1 InverseProblem.lon1 InverseProblem.height1
       InverseProblem.lat2 InverseProblem.lon2 InverseProblem.height2
       InverseProblem.e2 InverseProblem.N1 InverseProblem.N2].
  split.
  - destruct (Hsg (radians lat1)) as [H1 H2].
    apply ellipsoid_polynomial; try assumption; try lra; apply sin_cos_sqr.
  - destruct (Hsg (radians lat2)) as [H1 H2].
    apply ellipsoid_polynomial; try assumption; try lra; apply sin_cos_sqr.
Qed.

Lemma xyz_on_ellipsoid_witness :
  exists ip X1 Y1 Z1 X2 Y2 Z2,
    InverseProblem.init 52 21 0 (-33) 285 0 default_a default_b true = Ok ip
    /\ InverseProblem.convert_to_xyz ip
       = ((("X", X1) :: ("Y", Y1) :: ("Z", Z1) :: nil)%string,
          (("X", X2) :: ("Y", Y2) :: ("Z", Z2) :: nil)%string)
    /\ X1 ^ 2 / default_a ^ 2 + Y1 ^ 2 / default_a ^ 2
       + Z1 ^ 2 / default_b ^ 2 = 1
    /\ X2 ^ 2 / default_a ^ 2 + Y2 ^ 2 / default_a ^ 2
       + Z2 ^ 2 / default_b ^ 2 = 1.
Proof.
  apply (xyz_on_ellipsoid 52 21 (-33) 285 default_a default_b true);
    try exact default_axes; lra.
Defined.

(** ** The reduced chord of the inverse problem *)






(** ** Zenith distances of the inverse problem *)



Section ZenithNumerators.

Variable ip : InverseProblem.t.

Local Abbreviation forward_numerator :=
  ((InverseProblem.N2 ip + InverseProblem.height2 ip) * InverseProblem.cos_fi ip
   - (InverseProblem.N1 ip + InverseProblem.height1 ip)
   - InverseProblem.e2 ip
     * (InverseProblem.N2 ip * sin (InverseProblem.lat2 ip)
        - InverseProblem.N1 ip * sin (InverseProblem.lat1 ip))
     * sin (InverseProblem.lat1 ip)).

Local Abbreviation reverse_numerator :=
  ((InverseProblem.N1 ip + InverseProblem.height1 ip) * InverseProblem.cos_fi ip
   - (InverseProblem.N2 ip + InverseProblem.height2 ip)
   + InverseProblem.e2 ip
     * (InverseProblem.N2 ip * sin (InverseProblem.lat2 ip)
        - InverseProblem.N1 ip * sin (InverseProblem.lat1 ip))
     * sin (InverseProblem.lat2 ip)).



End ZenithNumerators.







(** ** Two points on one vertical *)




(** ** A chord along the normal at A *)




(** A chord whose direction cosines are those of the normal at A (zenith
    distance 0), ending on the same side of the axis of rotation. *)
Section VerticalChord.

Variable dp : DirectProblem.t.

Local Abbreviation phi := (DirectProblem.lat1 dp).
Local Abbreviation lam := (DirectProblem.lon1 dp).
Local Abbreviation rho :=
  (DirectProblem.N1 dp + DirectProblem.height1 dp + DirectProblem.chord dp).

Hypothesis Hphi : - (PI / 2) < phi < PI / 2.
Hypothesis Hlam : - PI < lam <= PI.
Hypothesis HN1 :
  curvature_radius (DirectProblem.a dp) (DirectProblem.e2 dp) phi
  = Ok (DirectProblem.N1 dp).
Hypothesis Hrho : 0 < rho.
Hypothesis Hl : DirectProblem.l dp = cos phi * cos lam.
Hypothesis Hm : DirectProblem.m dp = cos phi * sin lam.
Hypothesis Hn : DirectProblem.n dp = sin phi.











End VerticalChord.










(** ** A chord of length 0 *)

Lemma direct_init_chord
      (lat1 lon1 h1 chord az zen a b : R) (dd : bool) (dp : DirectProblem.t) :
  DirectProblem.init lat1 lon1 h1 chord az zen a b dd = Ok dp ->
  DirectProblem.chord dp = chord.
Proof.
  unfold DirectProblem.init.
  destruct (negb _); [discriminate |].
  destruct (gt lon1 360); [discriminate |].
  destruct (truediv _ _) as [e2 | e]; cbn [bind]; [| discriminate].
  destruct (curvature_radius _ _ _) as [N1 | e]; cbn [bind]; [| discriminate].
  intros H. injection H as <-. reflexivity.
Qed.

Ltac raise_at_zero_divisor :=
  repeat match goal with
    | |- exists e, bind (truediv _ 0) _ = Raise e =>
        rewrite truediv_zero; cbn [bind]; eexists; reflexivity
    | |- exists e, bind ?c _ = Raise e =>
        destruct c as [? | ?]; cbn [bind fst snd]; [| eexists; reflexivity]
    end.

Lemma reduced_distance_zero_chord (dp : DirectProblem.t) :
  DirectProblem.chord dp = 0 ->
  exists e, DirectProblem.reduced_distance dp = Raise e.
Proof.
  intros Hc. unfold DirectProblem.reduced_distance. rewrite Hc.
  replace (0 ^ 2) with 0 by ring.
  raise_at_zero_divisor.
Qed.

Lemma reverse_zenith_distance_zero_chord (dp : DirectProblem.t) :
  DirectProblem.chord dp = 0 ->
  exists e, DirectProblem.reverse_zenith_distance dp = Raise e.
Proof.
  intros Hc. unfold DirectProblem.reverse_zenith_distance. rewrite Hc.
  raise_at_zero_divisor.
Qed.

(** X15: the constructor of [DirectProblem] accepts a chord of length 0,
    but on such an instance [reduced_distance()] and
    [reverse_zenith_distance()] never return (they divide by [chord**2]
    and by [chord]), and so [display_measures()] never returns either. *)
Theorem zero_chord_not_measured
        (lat1 lon1 h1 az zen a b : R) (dd : bool) (str_float : R -> string) :
  0 < b <= a -> -90 <= lat1 <= 90 -> lon1 <= 360 ->
  exists dp,
    DirectProblem.init lat1 lon1 h1 0 az zen a b dd = Ok dp
    /\ (exists e, DirectProblem.reduced_distance dp = Raise e)
    /\ (exists e, DirectProblem.reverse_zenith_distance dp = Raise e)
    /\ (exists e, DirectProblem.display_measures str_float dp = Raise e).
Proof.
  intros Hab Hlat Hlon.
  pose proof (direct_init_ok lat1 lon1 h1 0 az zen a b dd Hab Hlat Hlon)
    as Hinit.
  cbv zeta in Hinit.
  match type of Hinit with _ = Ok ?d => set (dp := d) in * end.
  pose proof (direct_init_chord _ _ _ _ _ _ _ _ _ _ Hinit) as Hc.
  destruct (reduced_distance_zero_chord dp Hc) as [e He].
  exists dp. split; [exact Hinit |].
  split; [now exists e |].
  split; [now apply reverse_zenith_distance_zero_chord |].
  unfold DirectProblem.display_measures.
  destruct (DirectProblem.dec_degs dp);
    (destruct (DirectProblem.latitude dp) as [r | e1]; cbn [bind];
     [| eexists; reflexivity]);
    (destruct (DirectProblem.height dp) as [h | e2]; cbn [bind];
     [| eexists; reflexivity]);
    rewrite He; cbn [bind]; eexists; reflexivity.
Qed.

Lemma zero_chord_not_measured_witness :
  exists dp,
    DirectProblem.init 45 30 100 0 60 80 default_a default_b true = Ok dp
    /\ (exists e, DirectProblem.reduced_distance dp = Raise e)
    /\ (exists e, DirectProblem.reverse_zenith_distance dp = Raise e)
    /\ (exists e,
          DirectProblem.display_measures (fun _ => EmptyString) dp = Raise e).
Proof.
  apply (zero_chord_not_measured 45 30 100 60 80 default_a default_b true);
    try exact default_axes; lra.
Defined.

(** ** What [display_measures] of the direct problem needs *)

Lemma reduced_distance_needs (dp : DirectProblem.t) (v : R) :
  DirectProblem.reduced_distance dp = Ok v ->
  exists r h,
    DirectProblem.latitude dp = Ok r /\ DirectProblem.height dp = Ok h.
Proof.
  unfold DirectProblem.reduced_distance.
  destruct (DirectProblem.latitude dp) as [r | e]; cbn [bind];
    [| discriminate].
  destruct (DirectProblem.height dp) as [h | e]; cbn [bind];
    [| discriminate].
  intros _. now exists r, h.
Qed.

(** X16: [display_measures()] of the direct problem returns exactly when
    [reduced_distance()] and [reverse_zenith_distance()] both return (the
    other methods it calls then return as well), in either notation of
    the angles; the dictionary it returns has the seven labels below, in
    this order. *)
Theorem direct_display_measures
        (str_float : R -> string) (dp : DirectProblem.t) :
  ((exists d, DirectProblem.display_measures str_float dp = Ok d)
   <-> (exists v w,
          DirectProblem.reduced_distance dp = Ok v
          /\ DirectProblem.reverse_zenith_distance dp = Ok w))
  /\ (forall d,
        DirectProblem.display_measures str_float dp = Ok d ->
        keys d
        = ("Normal radius of curvature" :: "Latitude" :: "Longitude"
           :: "Height" :: "Reduced chord" :: "Reverse zenith distance"
           :: "XYZ 2" :: nil)%string).
Proof.
  split; [split |].
  - intros [d Hd]. unfold DirectProblem.display_measures in Hd.
    destruct (DirectProblem.dec_degs dp);
      (destruct (DirectProblem.latitude dp) as [r | e]; cbn [bind] in Hd;
       [| discriminate]);
      (destruct (DirectProblem.height dp) as [h | e]; cbn [bind] in Hd;
       [| discriminate]);
      (destruct (DirectProblem.reduced_distance dp) as [v | e];
       cbn [bind] in Hd; [| discriminate]);
      (destruct (DirectProblem.reverse_zenith_distance dp) as [w | e];
       cbn [bind] in Hd; [| discriminate]);
      now exists v, w.
  - intros (v & w & Hv & Hw).
    destruct (reduced_distance_needs dp v Hv) as (r & h & Hr & Hh).
    destruct (convert_to_xyz_returns dp h r Hr Hh) as [xyz Hxyz].
    unfold DirectProblem.display_measures.
    rewrite Hr, Hh, Hv, Hw, Hxyz. cbn [bind].
    destruct (DirectProblem.dec_degs dp); eexists; reflexivity.
  - intros d Hd. unfold DirectProblem.display_measures in Hd.
    destruct (DirectProblem.dec_degs dp);
      (destruct (DirectProblem.latitude dp) as [r | e]; cbn [bind] in Hd;
       [| discriminate]);
      (destruct (DirectProblem.height dp) as [h | e]; cbn [bind] in Hd;
       [| discriminate]);
      (destruct (DirectProblem.reduced_distance dp) as [v | e];
       cbn [bind] in Hd; [| discriminate]);
      (destruct (DirectProblem.reverse_zenith_distance dp) as [w | e];
       cbn [bind] in Hd; [| discriminate]);
      (destruct (DirectProblem.convert_to_xyz dp) as [xyz | e];
       cbn [bind] in Hd; [| discriminate]);
      injection Hd as <-; reflexivity.
Qed.

(** ** Coincident points *)



(** ** [display_measures] of the inverse problem *)








(** ** Exchanging the two points *)


Section SwapDirections.

Variables (x1 l1 h1 x2 l2 h2 a b e2 n1 n2 : R) (dd : bool).

Local Abbreviation AB :=
  (InverseProblem.mk x1 l1 h1 x2 l2 h2 a b dd e2 n1 n2).
Local Abbreviation BA :=
  (InverseProblem.mk x2 l2 h2 x1 l1 h1 a b dd e2 n2 n1).



End SwapDirections.



(** ** When [latitude] of the direct problem is defined *)




(** ** The longitudes the constructors store *)

Lemma radians_fold (lon : R) : radians (lon - 360) = radians lon - 2 * PI.
Proof. pose proof PI_RGT_0. unfold radians. field. Qed.

Lemma stored_longitude (lon : R) :
  -180 < lon <= 360 ->
  let stored := radians (if gt lon 180 then lon - 360 else lon) in
  - PI < stored <= PI
  /\ cos stored = cos (radians lon) /\ sin stored = sin (radians lon).
Proof.
  intros [H1 H2] stored. unfold stored.
  pose proof PI_RGT_0 as HPI.
  destruct (Rlt_dec 180 lon) as [H | H].
  - rewrite gt_true by assumption. rewrite radians_fold.
    assert (Hr : PI < radians lon <= 2 * PI).
    { unfold radians. split; nra. }
    split; [lra |].
    rewrite cos_minus, sin_minus, cos_2PI, sin_2PI. split; ring.
  - rewrite gt_false by lra.
    assert (Hr : - PI < radians lon <= PI).
    { unfold radians. split; nra. }
    split; [exact Hr |]. split; reflexivity.
Qed.

(** X21: a longitude in (-180, 360] is stored by both constructors as an
    angle of (-pi, pi] with the same cosine and sine: longitudes above 180
    degrees are folded by a full turn, and the point they name is
    unchanged. *)
Theorem longitude_normalised
        (lat1 lon1 h1 chord az zen lat2 lon2 h2 a b : R) (dd : bool) :
  0 < b <= a -> -90 <= lat1 <= 90 -> -90 <= lat2 <= 90 ->
  -180 < lon1 <= 360 -> -180 < lon2 <= 360 ->
  exists dp ip,
    DirectProblem.init lat1 lon1 h1 chord az zen a b dd = Ok dp
    /\ InverseProblem.init lat1 lon1 h1 lat2 lon2 h2 a b dd = Ok ip
    /\ DirectProblem.lon1 dp = InverseProblem.lon1 ip
    /\ - PI < InverseProblem.lon1 ip <= PI
    /\ cos (InverseProblem.lon1 ip) = cos (radians lon1)
    /\ sin (InverseProblem.lon1 ip) = sin (radians lon1)
    /\ - PI < InverseProblem.lon2 ip <= PI
    /\ cos (InverseProblem.lon2 ip) = cos (radians lon2)
    /\ sin (InverseProblem.lon2 ip) = sin (radians lon2).
Proof.
  intros Hab Hlat1 Hlat2 Hlon1 Hlon2.
  do 2 eexists.
  split; [apply direct_init_ok; try assumption; lra |].
  split; [apply inverse_init_ok; try assumption; lra |].
  cbn [DirectProblem.lon1 InverseProblem.lon1 InverseProblem.lon2].
  split; [reflexivity |].
  destruct (stored_longitude lon1 Hlon1) as (Ha & Hb & Hc).
  destruct (stored_longitude lon2 Hlon2) as (Ha' & Hb' & Hc').
  repeat split; try assumption; apply Ha || apply Ha'.
Qed.

Lemma longitude_normalised_witness :
  exists dp ip,
    DirectProblem.init 10 285 0 1000 45 80 default_a default_b true = Ok dp
    /\ InverseProblem.init 10 285 0 20 190 0 default_a default_b true = Ok ip
    /\ DirectProblem.lon1 dp = InverseProblem.lon1 ip
    /\ - PI < InverseProblem.lon1 ip <= PI
    /\ cos (InverseProblem.lon1 ip) = cos (radians 285)
    /\ sin (InverseProblem.lon1 ip) = sin (radians 285)
    /\ - PI < InverseProblem.lon2 ip <= PI
    /\ cos (InverseProblem.lon2 ip) = cos (radians 190)
    /\ sin (InverseProblem.lon2 ip) = sin (radians 190).
Proof.
  apply (longitude_normalised 10 285 0 1000 45 80 20 190 0
           default_a default_b true); try exact default_axes; lra.
Defined.

(** ** Edges of the sexagesimal notation *)


(** X22: an angle strictly between -1 and 0 degrees is written without
    its sign: [int] truncates it to 0, which is written "0", and the
    minutes and seconds are taken from the absolute value, so that the
    string is the one of the opposite angle. *)
Theorem decimal_to_dms_drops_sign (x : R) :
  -1 < x < 0 -> decimal_to_dms x = decimal_to_dms (- x).
Proof.
  intros [H1 H2].
  assert (Hi : int x = 0%Z).
  { unfold int. rewrite le_false by lra.
    rewrite (Int_part_eq (- x) 0) by lra. reflexivity. }
  assert (Hj : int (- x) = 0%Z).
  { rewrite int_nonneg by lra. apply Int_part_eq. lra. }
  unfold decimal_to_dms. cbv zeta. now rewrite Hi, Hj, Rabs_Ropp.
Qed.

Lemma decimal_to_dms_drops_sign_witness :
  -1 < - (1 / 2) < 0
  /\ decimal_to_dms (- (1 / 2)) = decimal_to_dms (- - (1 / 2)).
Proof.
  assert (H : -1 < - (1 / 2) < 0) by lra.
  split; [exact H | exact (decimal_to_dms_drops_sign (- (1 / 2)) H)].
Defined.


